(** * updatechecker: a model of [main.go] and the properties of its
    change detector, report writer and checkpoint store.

    The program lists the repositories of a Bitbucket account, clones
    each one, looks for configuration files whose history has a commit
    newer than the last checking time, writes a report and stores the
    time of the run for the next one.

    Layout of the development:
    - [Go]        results, errors and the functions of Go's [strings]
                  package that [main.go] calls;
    - [GoTime]    [time.Time], [Sub], [AddDate], and [Format] / [Parse]
                  for the layout [object.DateFormat];
    - [Sys]       the file store and the package-level variables, with a
                  state-and-error monad;
    - the functions of [main.go], under their own names;
    - the theorems. *)

From Stdlib Require Import ZArith Lia Ascii String List Bool.
From stdpp Require Import base gmap strings list fin_maps.

Local Open Scope Z_scope.

(** ** Go-level basics *)

Module Go.

(** Go's [error] values, as far as the program tells them apart. *)
Inductive error : Type :=
  | ErrNotExist                 (* os.IsNotExist holds *)
  | ErrPermission               (* any other failure of the file store *)
  | ErrNoSpace                  (* a short write *)
  | ErrParse (msg : string)     (* *time.ParseError *)
  | ErrGit (msg : string)       (* go-git *)
  | ErrOther (msg : string).    (* yaml, bitbucket API *)

Inductive result (A : Type) : Type :=
  | Ok (a : A)
  | Err (e : error).
Arguments Ok {A} a.
Arguments Err {A} e.

Definition is_ok {A} (r : result A) : bool :=
  match r with Ok _ => true | Err _ => false end.

Definition IsNotExist (e : error) : bool :=
  match e with ErrNotExist => true | _ => false end.

(** [len(s)] *)
Definition len (s : string) : Z := Z.of_nat (String.length s).

(** [s[n:]] and [s[:n]] on a byte count [n]. *)
Fixpoint drop_bytes (n : nat) (s : string) : string :=
  match n, s with
  | O, _ => s
  | S n', String _ s' => drop_bytes n' s'
  | S _, EmptyString => EmptyString
  end.

Fixpoint take_bytes (n : nat) (s : string) : string :=
  match n, s with
  | O, _ => EmptyString
  | S n', String c s' => String c (take_bytes n' s')
  | S _, EmptyString => EmptyString
  end.

(** The slice expressions [s[i:]] and [s[:i]]. Every index the program
    slices with lies in [0 .. len(s)], where Go does not panic. *)
Definition slice_from (s : string) (i : Z) : string := drop_bytes (Z.to_nat i) s.
Definition slice_to (s : string) (i : Z) : string := take_bytes (Z.to_nat i) s.

(** [strings.HasPrefix] *)
Fixpoint HasPrefix (s prefix : string) {struct prefix} : bool :=
  match prefix with
  | EmptyString => true
  | String p prefix' =>
      match s with
      | EmptyString => false
      | String c s' => if Ascii.eqb c p then HasPrefix s' prefix' else false
      end
  end.

(** [strings.Index]: the byte index of the first instance of [substr]
    in [s], or -1. *)
Fixpoint Index (s substr : string) : Z :=
  if HasPrefix s substr then 0
  else match s with
       | EmptyString => -1
       | String _ s' =>
           let i := Index s' substr in
           if i <? 0 then -1 else i + 1
       end.

(** [strings.LastIndex] *)
Fixpoint LastIndex (s substr : string) : Z :=
  match s with
  | EmptyString => if HasPrefix s substr then 0 else -1
  | String _ s' =>
      let i := LastIndex s' substr in
      if 0 <=? i then i + 1
      else if HasPrefix s substr then 0 else -1
  end.

(** [strings.Contains(s, substr)] is [Index(s, substr) >= 0]. *)
Definition Contains (s substr : string) : bool := 0 <=? Index s substr.

(** [strings.Split(s, sep)] for a separator that is not empty (both
    calls of the program pass a one-byte separator). The fuel is the
    length of [s]: every cut removes at least one byte. *)
Fixpoint Split_from (fuel : nat) (s sep : string) : list string :=
  match fuel with
  | O => [s]
  | S fuel' =>
      let i := Index s sep in
      if i <? 0 then [s]
      else slice_to s i :: Split_from fuel' (slice_from s (i + len sep)) sep
  end.

Definition Split (s sep : string) : list string :=
  Split_from (String.length s) s sep.

(** [xs[0]] on the result of [Split], which is never empty. *)
Definition first (xs : list string) : string := hd EmptyString xs.

Fixpoint in_cutset (c : ascii) (cutset : string) : bool :=
  match cutset with
  | EmptyString => false
  | String d cutset' => if Ascii.eqb c d then true else in_cutset c cutset'
  end.

(** [strings.TrimRight(s, cutset)]: [s] without its trailing bytes that
    are in [cutset]. *)
Fixpoint TrimRight (s cutset : string) : string :=
  match s with
  | EmptyString => EmptyString
  | String c s' =>
      match TrimRight s' cutset with
      | EmptyString => if in_cutset c cutset then EmptyString else String c EmptyString
      | r => String c r
      end
  end.

(** [filepath.Join] of two elements, without the final [Clean]. *)
Definition Join (a b : string) : string :=
  match a, b with
  | EmptyString, _ => b
  | _, EmptyString => a
  | _, _ => a +:+ "/" +:+ b
  end.

End Go.
Export Go.

(** ** Times *)

Module GoTime.

(** A [time.Time]: seconds and nanoseconds since the Unix epoch, and the
    offset of its location in seconds east of UTC. The monotonic clock
    reading of [time.Now()] is left out: [Sub] uses it only when both
    times carry one, and times read from a commit or from the check file
    carry none. *)
Record Time : Type := mkTime {
  sec : Z;
  nsec : Z;
  offset : Z;
}.

Global Instance Time_eq_dec : EqDecision Time.
Proof. solve_decision. Defined.

(** The instant of a time, in nanoseconds since the epoch. *)
Definition instant (t : Time) : Z := sec t * 1000000000 + nsec t.

Definition minDuration : Z := - 2 ^ 63.
Definition maxDuration : Z := 2 ^ 63 - 1.

(** [t.Sub(u)]: the duration [t - u] in nanoseconds; a difference that
    does not fit in a [Duration] yields the largest or the smallest
    one. *)
Definition Sub (t u : Time) : Z :=
  let d := instant t - instant u in
  if d <? minDuration then minDuration
  else if maxDuration <? d then maxDuration
  else d.

(** *** The calendar

    Days are counted from January 1 of year 1 in the proleptic Gregorian
    calendar (Go counts them from a year that is 1 modulo 400 far enough
    in the past to keep every count positive; the arithmetic is the
    same, here on [Z] with rounding down). *)

Definition secondsPerDay : Z := 86400.
Definition daysPer400Years : Z := 365 * 400 + 97.
Definition daysPer100Years : Z := 365 * 100 + 24.
Definition daysPer4Years : Z := 365 * 4 + 1.

(** Days from January 1 of year 1 to January 1 of 1970. *)
Definition unixEpochDays : Z := 1969 * 365 + 1969 / 4 - 1969 / 100 + 1969 / 400.

Definition isLeap (year : Z) : bool :=
  (Z.rem year 4 =? 0) && (negb (Z.rem year 100 =? 0) || (Z.rem year 400 =? 0)).

Definition daysBefore : list Z :=
  [0; 31; 31 + 28; 31 + 28 + 31; 31 + 28 + 31 + 30; 31 + 28 + 31 + 30 + 31;
   31 + 28 + 31 + 30 + 31 + 30; 31 + 28 + 31 + 30 + 31 + 30 + 31;
   31 + 28 + 31 + 30 + 31 + 30 + 31 + 31;
   31 + 28 + 31 + 30 + 31 + 30 + 31 + 31 + 30;
   31 + 28 + 31 + 30 + 31 + 30 + 31 + 31 + 30 + 31;
   31 + 28 + 31 + 30 + 31 + 30 + 31 + 31 + 30 + 31 + 30;
   31 + 28 + 31 + 30 + 31 + 30 + 31 + 31 + 30 + 31 + 30 + 31].

(** [tab[i]] for a table of numbers. *)
Definition at_ (tab : list Z) (i : Z) : Z := nth (Z.to_nat i) tab 0.

Definition daysIn (m year : Z) : Z :=
  if (m =? 2) && isLeap year then 29
  else at_ daysBefore m - at_ daysBefore (m - 1).

(** [absDate]: the year and the day within the year (from 0) of a day
    count. *)
Definition absDate (days : Z) : Z * Z :=
  (* 400-year cycles *)
  let n := days / daysPer400Years in
  let y := 400 * n in
  let d := days - daysPer400Years * n in
  (* 100-year cycles; the last one is a day longer *)
  let n := d / daysPer100Years in
  let n := n - Z.shiftr n 2 in
  let y := y + 100 * n in
  let d := d - daysPer100Years * n in
  (* 4-year cycles *)
  let n := d / daysPer4Years in
  let y := y + 4 * n in
  let d := d - daysPer4Years * n in
  (* years of a 4-year cycle; the last one is a day longer *)
  let n := d / 365 in
  let n := n - Z.shiftr n 2 in
  let y := y + n in
  let d := d - 365 * n in
  (y + 1, d).

(** The month (from 1) and the day of the month of day [yday] of
    [year]. *)
Definition monthDay (year yday : Z) : Z * Z :=
  if isLeap year && (yday =? 31 + 29 - 1) then (2, 29)
  else
    let day := if isLeap year && (31 + 29 - 1 <? yday) then yday - 1 else yday in
    let month := day / 31 in
    let end_ := at_ daysBefore (month + 1) in
    if end_ <=? day then (month + 2, day - end_ + 1)
    else (month + 1, day - at_ daysBefore month + 1).

(** Days from January 1 of year 1 to January 1 of [year]. *)
Definition daysSinceEpoch (year : Z) : Z :=
  let y := year - 1 in
  let n := y / 400 in
  let y := y - 400 * n in
  let d := daysPer400Years * n in
  let n := y / 100 in
  let y := y - 100 * n in
  let d := d + daysPer100Years * n in
  let n := y / 4 in
  let y := y - 4 * n in
  let d := d + daysPer4Years * n in
  d + 365 * y.

(** [norm(hi, lo, base)]: carry [lo] into [hi] so that [0 <= lo < base]. *)
Definition norm (hi lo base : Z) : Z * Z := (hi + lo / base, lo mod base).

(** [time.Date(year, month, day, hour, min, sec, nsec, loc)] for a
    location with the fixed offset [off]. Values out of range are
    normalised, so October 32 is November 1. *)
Definition Date (year month day hour min sec nsec off : Z) : Time :=
  let '(year, m) := norm year (month - 1) 12 in
  let month := m + 1 in
  let '(sec, nsec) := norm sec nsec 1000000000 in
  let '(min, sec) := norm min sec 60 in
  let '(hour, min) := norm hour min 60 in
  let '(day, hour) := norm day hour 24 in
  let d := daysSinceEpoch year + at_ daysBefore (month - 1) in
  let d := if isLeap year && (3 <=? month) then d + 1 else d in
  let d := d + (day - 1) in
  let abs := d * secondsPerDay + hour * 3600 + min * 60 + sec in
  mkTime (abs - unixEpochDays * secondsPerDay - off) nsec off.

(** The wall clock of [t] in its own location, in seconds since
    January 1 of year 1. *)
Definition abs_ (t : Time) : Z := sec t + offset t + unixEpochDays * secondsPerDay.

(** [t.Date()]: year, month, day. *)
Definition date (t : Time) : Z * Z * Z :=
  let '(year, yday) := absDate (abs_ t / secondsPerDay) in
  let '(month, day) := monthDay year yday in
  (year, month, day).

(** [t.Clock()]: hour, minute, second. *)
Definition clock (t : Time) : Z * Z * Z :=
  let s := abs_ t mod secondsPerDay in
  (s / 3600, (s mod 3600) / 60, s mod 60).

(** [t.Weekday()], Sunday = 0: January 1 of year 1 is a Monday. *)
Definition weekday (t : Time) : Z := (abs_ t / secondsPerDay + 1) mod 7.

(** [t.AddDate(years, months, days)] *)
Definition AddDate (t : Time) (years months days : Z) : Time :=
  let '(year, month, day) := date t in
  let '(hour, min, s) := clock t in
  Date (year + years) (month + months) (day + days) hour min s (nsec t) (offset t).

(** *** Layouts

    A layout is kept as the sequence of chunks that Go's [nextStdChunk]
    cuts it into: literal text and the reference-time elements. Only the
    elements of the two layouts of the program are listed. *)

Inductive chunk : Type :=
  | Lit (text : string)
  | stdWeekDay        (* "Mon" *)
  | stdMonth          (* "Jan" *)
  | stdZeroMonth      (* "01" *)
  | stdZeroDay        (* "02" *)
  | stdHour           (* "15" *)
  | stdZeroMinute     (* "04" *)
  | stdZeroSecond     (* "05" *)
  | stdLongYear       (* "2006" *)
  | stdNumTZ.         (* "-0700" *)

(** go-git's [object.DateFormat], "Mon Jan 02 15:04:05 2006 -0700". *)
Definition DateFormat : list chunk :=
  [stdWeekDay; Lit " "; stdMonth; Lit " "; stdZeroDay; Lit " ";
   stdHour; Lit ":"; stdZeroMinute; Lit ":"; stdZeroSecond; Lit " ";
   stdLongYear; Lit " "; stdNumTZ].

(** The layout "2006-01-02" of the report's file name. *)
Definition dayLayout : list chunk :=
  [stdLongYear; Lit "-"; stdZeroMonth; Lit "-"; stdZeroDay].

Definition shortDayNames : list string :=
  ["Sun"; "Mon"; "Tue"; "Wed"; "Thu"; "Fri"; "Sat"].

Definition shortMonthNames : list string :=
  ["Jan"; "Feb"; "Mar"; "Apr"; "May"; "Jun";
   "Jul"; "Aug"; "Sep"; "Oct"; "Nov"; "Dec"].

Definition name_at (tab : list string) (i : Z) : string :=
  nth (Z.to_nat i) tab EmptyString.

(** *** Format *)

(** The byte ['0' + d]. *)
Definition digit (d : Z) : ascii := ascii_of_N (Z.to_N (48 + d)).

(** The decimal digits of [u >= 0], written from the right into a
    buffer of [fuel] bytes (20 in Go). *)
Fixpoint decimal (fuel : nat) (u : Z) (buf : string) : string :=
  match fuel with
  | O => buf
  | S fuel' =>
      if 10 <=? u then decimal fuel' (u / 10) (String (digit (u mod 10)) buf)
      else String (digit u) buf
  end.

Fixpoint zeros (n : nat) (s : string) : string :=
  match n with
  | O => s
  | S n' => String "0" (zeros n' s)
  end.

(** [appendInt(b, x, width)]: [x] in decimal, with a sign when negative,
    padded with zeros to [width] digits. *)
Definition appendInt (x : Z) (width : nat) : string :=
  let ds := decimal 20 (Z.abs x) EmptyString in
  (if x <? 0 then "-" else "") +:+ zeros (width - String.length ds) ds.

Definition format_chunk (t : Time) (c : chunk) : string :=
  let '(year, month, day) := date t in
  let '(hour, min, s) := clock t in
  match c with
  | Lit text => text
  | stdWeekDay => name_at shortDayNames (weekday t)
  | stdMonth => name_at shortMonthNames (month - 1)
  | stdZeroMonth => appendInt month 2
  | stdZeroDay => appendInt day 2
  | stdHour => appendInt hour 2
  | stdZeroMinute => appendInt min 2
  | stdZeroSecond => appendInt s 2
  | stdLongYear => appendInt year 4
  | stdNumTZ =>
      let zone := Z.quot (offset t) 60 in
      let sign := if zone <? 0 then "-" else "+" in
      let zone := if zone <? 0 then - zone else zone in
      sign +:+ appendInt (zone / 60) 2 +:+ appendInt (Z.rem zone 60) 2
  end.

(** [t.Format(layout)] *)
Fixpoint Format (t : Time) (layout : list chunk) : string :=
  match layout with
  | [] => EmptyString
  | c :: layout' => format_chunk t c +:+ Format t layout'
  end.

(** *** Parse, as in Go 1.20 and later *)

Definition byte_at (s : string) (i : nat) : option ascii := String.get i s.

Definition code (c : ascii) : Z := Z.of_N (N_of_ascii c).

Definition is_digit (c : ascii) : bool := (48 <=? code c) && (code c <=? 57).

(** [isDigit(s, i)]: [s[i]] exists and is a decimal digit. *)
Definition isDigit (s : string) (i : nat) : bool :=
  match byte_at s i with
  | Some c => is_digit c
  | None => false
  end.

Definition digit_at (s : string) (i : nat) : Z :=
  match byte_at s i with
  | Some c => code c - 48
  | None => 0
  end.

(** [getnum(s, fixed)]: a number of one or two digits (two when
    [fixed]) and the rest of [s]. *)
Definition getnum (s : string) (fixed : bool) : option (Z * string) :=
  if negb (isDigit s 0) then None
  else if negb (isDigit s 1) then
    if fixed then None else Some (digit_at s 0, slice_from s 1)
  else Some (digit_at s 0 * 10 + digit_at s 1, slice_from s 2).

(** [match(s1, s2)]: equal without regard to the case of ASCII letters;
    the strings have the same length. *)
Fixpoint match_ (s1 s2 : string) : bool :=
  match s1, s2 with
  | String c1 s1', String c2 s2' =>
      (if Ascii.eqb c1 c2 then true
       else
         let l1 := Z.lor (code c1) 32 in
         let l2 := Z.lor (code c2) 32 in
         (l1 =? l2) && (97 <=? l1) && (l1 <=? 122))
      && match_ s1' s2'
  | _, _ => true
  end.

(** [lookup(tab, val)]: the index of the first name of [tab] that [val]
    starts with, and the rest of [val]. *)
Fixpoint lookup_from (i : Z) (tab : list string) (val : string) : option (Z * string) :=
  match tab with
  | [] => None
  | v :: tab' =>
      if (len v <=? len val) && match_ (slice_to val (len v)) v
      then Some (i, slice_from val (len v))
      else lookup_from (i + 1) tab' val
  end.

Definition lookup (tab : list string) (val : string) : option (Z * string) :=
  lookup_from 0 tab val.

Fixpoint cutspace (s : string) : string :=
  match s with
  | String " " s' => cutspace s'
  | _ => s
  end.

(** [skip(value, prefix)]: remove the literal [prefix] from [value]; a
    run of spaces in [prefix] stands for any run of spaces in [value].
    The fuel is the length of [prefix]. *)
Fixpoint skip_from (fuel : nat) (value prefix : string) : option string :=
  match fuel with
  | O => Some value
  | S fuel' =>
      match prefix with
      | EmptyString => Some value
      | String p prefix' =>
          if Ascii.eqb p " " then
            match value with
            | String v _ =>
                if Ascii.eqb v " "
                then skip_from fuel' (cutspace value) (cutspace prefix)
                else None
            | EmptyString => skip_from fuel' (cutspace value) (cutspace prefix)
            end
          else
            match value with
            | String v value' =>
                if Ascii.eqb v p then skip_from fuel' value' prefix' else None
            | EmptyString => None
            end
      end
  end.

Definition skip (value prefix : string) : option string :=
  skip_from (String.length prefix) value prefix.

(** [leadingInt(s)]: the leading digits of [s] as a number, and the
    rest. (Go stops with an error above 2^63; no call here passes more
    than nine digits.) *)
Fixpoint leadingInt (x : Z) (s : string) : Z * string :=
  match s with
  | String c s' => if is_digit c then leadingInt (x * 10 + (code c - 48)) s' else (x, s)
  | EmptyString => (x, s)
  end.

(** [atoi(s)]: an optional sign and digits, nothing else. *)
Definition atoi (s : string) : option Z :=
  let '(neg, s) :=
    match s with
    | String "-" s' => (true, s')
    | String "+" s' => (false, s')
    | _ => (false, s)
    end in
  let '(q, rem) := leadingInt 0 s in
  match rem with
  | EmptyString => Some (if neg then - q else q)
  | _ => None
  end.

Definition commaOrPeriod (c : ascii) : bool := Ascii.eqb c "." || Ascii.eqb c ",".

(** The number of bytes of [value] up to the end of the digits that
    start at index [n]. *)
Fixpoint digits_end (value : string) (n : nat) : nat :=
  match value with
  | String c value' => if is_digit c then digits_end value' (S n) else n
  | EmptyString => n
  end.

Fixpoint scale10 (k : nat) (ns : Z) : Z :=
  match k with
  | O => ns
  | S k' => scale10 k' (ns * 10)
  end.

(** [parseNanoseconds(value, nbytes)]: the fraction [value[:nbytes]],
    which starts with a period or a comma, in nanoseconds. *)
Definition parseNanoseconds (value : string) (nbytes : nat) : option Z :=
  match value with
  | EmptyString => None
  | String c _ =>
      if negb (commaOrPeriod c) then None
      else
        let nbytes := Nat.min nbytes 10 in
        match atoi (drop_bytes 1 (take_bytes nbytes value)) with
        | None => None
        | Some ns => if ns <? 0 then None else Some (scale10 (10 - nbytes) ns)
        end
  end.

(** The variables that the loop of [Parse] fills in. *)
Record fields : Type := mkFields {
  p_year : Z;
  p_month : Z;
  p_day : Z;
  p_hour : Z;
  p_min : Z;
  p_sec : Z;
  p_nsec : Z;
  p_zoneOffset : Z;
}.

Definition fields0 : fields := mkFields 0 (-1) (-1) 0 0 0 0 (-1).

Definition set_year (f : fields) (v : Z) :=
  mkFields v (p_month f) (p_day f) (p_hour f) (p_min f) (p_sec f) (p_nsec f) (p_zoneOffset f).
Definition set_month (f : fields) (v : Z) :=
  mkFields (p_year f) v (p_day f) (p_hour f) (p_min f) (p_sec f) (p_nsec f) (p_zoneOffset f).
Definition set_day (f : fields) (v : Z) :=
  mkFields (p_year f) (p_month f) v (p_hour f) (p_min f) (p_sec f) (p_nsec f) (p_zoneOffset f).
Definition set_hour (f : fields) (v : Z) :=
  mkFields (p_year f) (p_month f) (p_day f) v (p_min f) (p_sec f) (p_nsec f) (p_zoneOffset f).
Definition set_min (f : fields) (v : Z) :=
  mkFields (p_year f) (p_month f) (p_day f) (p_hour f) v (p_sec f) (p_nsec f) (p_zoneOffset f).
Definition set_sec (f : fields) (v : Z) :=
  mkFields (p_year f) (p_month f) (p_day f) (p_hour f) (p_min f) v (p_nsec f) (p_zoneOffset f).
Definition set_nsec (f : fields) (v : Z) :=
  mkFields (p_year f) (p_month f) (p_day f) (p_hour f) (p_min f) (p_sec f) v (p_zoneOffset f).
Definition set_zoneOffset (f : fields) (v : Z) :=
  mkFields (p_year f) (p_month f) (p_day f) (p_hour f) (p_min f) (p_sec f) (p_nsec f) v.

Definition errBad : error := ErrParse "bad value for field".
Definition errRange (what : string) : error := ErrParse (what +:+ " out of range").

(** The special case after the seconds: a fraction in the input that
    the layout does not have (no layout here has one) is read as
    nanoseconds. *)
Definition fraction (f : fields) (value : string) : result (fields * string) :=
  match value with
  | String c0 _ =>
      if (2 <=? len value) && commaOrPeriod c0 && isDigit value 1 then
        let n := digits_end (drop_bytes 2 value) 2 in
        match parseNanoseconds value n with
        | Some ns => Ok (set_nsec f ns, drop_bytes n value)
        | None => Err errBad
        end
      else Ok (f, value)
  | EmptyString => Ok (f, value)
  end.

(** One turn of the loop of [Parse]: the literal text or the element
    [c] is read from the front of [value]. *)
Definition parse_chunk (c : chunk) (f : fields) (value : string) : result (fields * string) :=
  match c with
  | Lit prefix =>
      match skip value prefix with
      | Some value' => Ok (f, value')
      | None => Err errBad
      end
  | stdWeekDay =>
      (* the name is checked, the day is not used *)
      match lookup shortDayNames value with
      | Some (_, value') => Ok (f, value')
      | None => Err errBad
      end
  | stdMonth =>
      match lookup shortMonthNames value with
      | Some (m, value') => Ok (set_month f (m + 1), value')
      | None => Err errBad
      end
  | stdZeroMonth =>
      match getnum value true with
      | Some (m, value') =>
          if (m <=? 0) || (12 <? m) then Err (errRange "month")
          else Ok (set_month f m, value')
      | None => Err errBad
      end
  | stdZeroDay =>
      (* any two digits; the day is checked against the month at the end *)
      match getnum value true with
      | Some (d, value') => Ok (set_day f d, value')
      | None => Err errBad
      end
  | stdHour =>
      match getnum value false with
      | Some (h, value') =>
          if (h <? 0) || (24 <=? h) then Err (errRange "hour")
          else Ok (set_hour f h, value')
      | None => Err errBad
      end
  | stdZeroMinute =>
      match getnum value true with
      | Some (m, value') =>
          if (m <? 0) || (60 <=? m) then Err (errRange "minute")
          else Ok (set_min f m, value')
      | None => Err errBad
      end
  | stdZeroSecond =>
      match getnum value true with
      | Some (s, value') =>
          if (s <? 0) || (60 <=? s) then Err (errRange "second")
          else fraction (set_sec f s) value'
      | None => Err errBad
      end
  | stdLongYear =>
      if (len value <? 4) || negb (isDigit value 0) then Err errBad
      else
        match atoi (slice_to value 4) with
        | Some y => Ok (set_year f y, slice_from value 4)
        | None => Err errBad
        end
  | stdNumTZ =>
      if len value <? 5 then Err errBad
      else
        let sign := slice_to value 1 in
        let hour := slice_to (slice_from value 1) 2 in
        let min := slice_to (slice_from value 3) 2 in
        let value' := slice_from value 5 in
        match getnum hour true, getnum min true, getnum "00" true with
        | Some (hr, _), Some (mm, _), Some (ss, _) =>
            if 24 <? hr then Err (errRange "time zone offset hour")
            else if 60 <? mm then Err (errRange "time zone offset minute")
            else if 60 <? ss then Err (errRange "time zone offset second")
            else
              let zoneOffset := (hr * 60 + mm) * 60 + ss in
              if String.eqb sign "+" then Ok (set_zoneOffset f zoneOffset, value')
              else if String.eqb sign "-" then Ok (set_zoneOffset f (- zoneOffset), value')
              else Err errBad
        | _, _, _ => Err errBad
        end
  end.

Fixpoint parse_loop (layout : list chunk) (f : fields) (value : string) : result fields :=
  match layout with
  | [] =>
      match value with
      | EmptyString => Ok f
      | _ => Err (ErrParse "extra text")
      end
  | c :: layout' =>
      match parse_chunk c f value with
      | Ok (f', value') => parse_loop layout' f' value'
      | Err e => Err e
      end
  end.

(** [time.Parse(layout, value)] *)
Definition Parse (layout : list chunk) (value : string) : result Time :=
  match parse_loop layout fields0 value with
  | Err e => Err e
  | Ok f =>
      let month := if p_month f <? 0 then 1 else p_month f in
      let day := if p_day f <? 0 then 1 else p_day f in
      if (day <? 1) || (daysIn month (p_year f) <? day)
      then Err (ErrParse "day out of range")
      else
        let t := Date (p_year f) month day (p_hour f) (p_min f) (p_sec f) (p_nsec f) 0 in
        if p_zoneOffset f =? -1 then Ok t
        else Ok (mkTime (sec t - p_zoneOffset f) (nsec t) (p_zoneOffset f))
  end.

End GoTime.
Export GoTime.

(** ** The file store and the package-level state *)

Module Sys.

(** What a run can see and change: regular files with their contents,
    directories, the paths on which every call is refused, the bytes
    still free on the device, and the package variable [cleanPaths]. *)
Record World : Type := mkWorld {
  files : gmap string string;
  dirs : gset string;
  denied : gset string;
  free : nat;
  cleanPaths : list string;
}.

(** A computation that reads and changes the world and returns a value
    or a Go [error]. *)
Definition M (A : Type) : Type := World → result A * World.

Definition ret {A} (a : A) : M A := fun w => (Ok a, w).

Definition fail {A} (e : error) : M A := fun w => (Err e, w).

(** [x, err := m; if err != nil { return err }; k x] *)
Definition bind {A B} (m : M A) (k : A → M B) : M B :=
  fun w =>
    match m w with
    | (Ok a, w') => k a w'
    | (Err e, w') => (Err e, w')
    end.

(** A call whose error the program does not look at. *)
Definition ignore_err {A} (m : M A) : M unit :=
  fun w => (Ok tt, snd (m w)).

(** [defer d()] in front of [m]: [d] runs when [m] returns or panics. *)
Definition defer {A} (d : World → World) (m : M A) : M A :=
  fun w => let '(r, w') := m w in (r, d w').

Definition lift {A} (r : result A) : M A := fun w => (r, w).

Notation "x <~ m ;; k" := (bind m (fun x => k))
  (at level 100, m at next level, right associativity).
Notation "m ;;; k" := (bind m (fun _ => k))
  (at level 100, right associativity).

(** [os.Stat(name)], as far as its error goes. *)
Definition Stat (name : string) : M unit :=
  fun w =>
    if decide (name ∈ denied w) then (Err ErrPermission, w)
    else if decide (name ∈ dirs w) then (Ok tt, w)
    else match files w !! name with
         | Some _ => (Ok tt, w)
         | None => (Err ErrNotExist, w)
         end.

(** [ioutil.ReadFile(name)] *)
Definition ReadFile (name : string) : M string :=
  fun w =>
    if decide (name ∈ denied w) then (Err ErrPermission, w)
    else if decide (name ∈ dirs w) then (Err ErrPermission, w)
    else match files w !! name with
         | Some data => (Ok data, w)
         | None => (Err ErrNotExist, w)
         end.

(** [os.Mkdir(name, os.ModePerm)] *)
Definition Mkdir (name : string) : M unit :=
  fun w =>
    if decide (name ∈ denied w) then (Err ErrPermission, w)
    else if decide (name ∈ dirs w) then (Err ErrPermission, w)
    else match files w !! name with
         | Some _ => (Err ErrPermission, w)
         | None =>
             (Ok tt, mkWorld (files w) ({[name]} ∪ dirs w) (denied w) (free w) (cleanPaths w))
         end.

(** [os.OpenFile(name, os.O_CREATE|os.O_WRONLY|os.O_TRUNC, 0600)]: the
    file exists and is empty afterwards; the bytes it held are free
    again. The descriptor is the name. *)
Definition OpenFile (name : string) : M string :=
  fun w =>
    if decide (name ∈ denied w) then (Err ErrPermission, w)
    else if decide (name ∈ dirs w) then (Err ErrPermission, w)
    else
      let old := default EmptyString (files w !! name) in
      (Ok name,
       mkWorld (<[name := EmptyString]> (files w)) (dirs w) (denied w)
               (free w + String.length old)%nat (cleanPaths w)).

(** [fd.WriteString(s)]: the bytes of [s] that fit on the device are
    appended; a short write is an error. *)
Definition WriteString (fd : string) (s : string) : M Z :=
  fun w =>
    match files w !! fd with
    | None => (Err ErrPermission, w)
    | Some old =>
        let k := Nat.min (String.length s) (free w) in
        let w' := mkWorld (<[fd := old +:+ take_bytes k s]> (files w)) (dirs w)
                          (denied w) (free w - k)%nat (cleanPaths w) in
        if (k <? String.length s)%nat then (Err ErrNoSpace, w') else (Ok (len s), w')
    end.

(** A file name at or below [path]. *)
Definition under (path name : string) : bool :=
  String.eqb name path || HasPrefix name (path +:+ "/").

(** [os.RemoveAll(path)], whose error the program drops. *)
Definition RemoveAll (path : string) (w : World) : World :=
  mkWorld (filter (fun kv => under path (fst kv) = false) (files w))
          (filter (fun d => under path d = false) (dirs w))
          (denied w)
          (free w + map_fold (fun k v n => if under path k then n + String.length v else n)%nat
                             O (files w))%nat
          (cleanPaths w).

End Sys.
Export Sys.

(** ** The collaborators: yaml, Bitbucket, go-git *)

Module Collab.

(** [Config]: the structure for the script. *)
Record Config : Type := mkConfig {
  Username : string;
  Passwd : string;
  Owner : string;
  Clone : string;
  Pattern : string;
}.

(** One entry of [item.Links["clone"]]: a map with the keys [href] and
    [name]. *)
Record Link : Type := mkLink {
  href : string;
  name : string;
}.

(** A repository of the account listing, with its clone links. *)
Record Item : Type := mkItem {
  Links_clone : list Link;
}.

(** [fmt.Sprintf("%v", link)]: the keys of a map are printed in
    increasing order. *)
Definition Sprintf_v (link : Link) : string :=
  "map[href:" +:+ href link +:+ " name:" +:+ name link +:+ "]".

Record Signature : Type := mkSignature {
  When : Time;
}.

(** [object.Tree], as the names that [tree.Files()] yields. *)
Record Tree : Type := mkTree {
  Files : list string;
}.

(** [object.Commit] *)
Record Commit : Type := mkCommit {
  Author : Signature;
  CommitTree : result Tree;       (* commit.Tree() *)
}.

Record LogOptions : Type := mkLogOptions {
  From : string;
  FileName : string;
}.

(** [git.Repository]; a hash is a string, and [Log] gives the commits
    that its iterator yields. *)
Record Repository : Type := mkRepository {
  Head : result string;                       (* ref.Hash() of Head() *)
  CommitObject : string → result Commit;
  Log : LogOptions → result (list Commit);
}.

(** What a run gets from outside the file store. *)
Record Env : Type := mkEnv {
  start : Time;                               (* var start = time.Now() *)
  Now : Time;                                 (* time.Now() in readCheckTime *)
  Unmarshal : string → result Config;         (* yaml.Unmarshal *)
  ListForAccount : Config → result (list Item);
  Remote : string → result Repository;        (* the clone of a URL *)
  (* the order in which [range] visits the entries of a map *)
  range_result : list (string * Time) → list (string * Time);
  range_repositories : list (string * string) → list (string * string);
}.

(** [range] visits every entry of the map once, in an order of its
    own. *)
Definition range_ok (env : Env) : Prop :=
  (∀ l, range_result env l ≡ₚ l) ∧ (∀ l, range_repositories env l ≡ₚ l).

(** [git.PlainClone(dest, false, options)]: fails on a destination that
    exists and when the remote cannot be fetched; otherwise [dest] is a
    directory afterwards. *)
Definition PlainClone (env : Env) (dest url : string) : M Repository :=
  fun w =>
    if decide (dest ∈ denied w) then (Err ErrPermission, w)
    else if decide (dest ∈ dirs w) then (Err (ErrGit "repository already exists"), w)
    else match files w !! dest with
         | Some _ => (Err ErrPermission, w)
         | None =>
             match Remote env url with
             | Err e => (Err e, w)
             | Ok r =>
                 (Ok r, mkWorld (files w) ({[dest]} ∪ dirs w) (denied w) (free w) (cleanPaths w))
             end
         end.

(** [iter.ForEach(cb)] of go-git's iterators: [cb] is called on each
    element in turn; its first error stops the iteration and is
    returned. The state that [cb] closes over is passed along. *)
Fixpoint ForEach {A S} (cb : A → S → S * option error) (xs : list A) (st : S)
  : S * option error :=
  match xs with
  | [] => (st, None)
  | x :: xs' =>
      match cb x st with
      | (st', None) => ForEach cb xs' st'
      | (st', Some e) => (st', Some e)
      end
  end.

End Collab.
Export Collab.

(** ** main.go *)

Definition checkFileName : string := "check.txt".
Definition configFileName : string := "config.yml".
Definition resultDir : string := "result".

(** parse the config file *)
Definition parseYamlFile (env : Env) (filename : string) : M Config :=
  data <~ ReadFile filename ;;
  lift (Unmarshal env data).

(** The body of the loop over [item.Links["clone"]]: the first link
    whose text contains "https" sets [repositories[key]] and ends the
    loop. *)
Fixpoint cloneLinks (links : list Link) (repositories : gmap string string)
  : gmap string string :=
  match links with
  | [] => repositories
  | link :: links' =>
      let format := Sprintf_v link in
      if Contains format "https" then
        let head := first (Split format " ") in
        let val := slice_from head (Index head ":" + 1) in
        let repos := slice_from val (LastIndex val "/" + 1) in
        let key := first (Split repos ".") in
        <[key := val]> repositories
      else cloneLinks links' repositories
  end.

(** retrieve all the repositories by the owner and role *)
Definition retrieveRepositories (env : Env) (c : Config) : M (gmap string string) :=
  items <~ lift (ListForAccount env c) ;;
  ret (fold_left (fun repositories item => cloneLinks (Links_clone item) repositories)
                 items ∅).

(** The callback of [iter.ForEach] in [checkRepository]. *)
Definition commitCallback (lastTime : Time) (fName : string) (c : Commit)
    (result : gmap string Time) : gmap string Time * option error :=
  if 0 <? Sub (When (Author c)) lastTime then
    match result !! fName with
    | None => (<[fName := When (Author c)]> result, None)
    | Some t =>
        if 0 <? Sub (When (Author c)) t
        then (<[fName := When (Author c)]> result, None)
        else (result, None)
    end
  else (result, None).

(** The callback of [tree.Files().ForEach] in [checkRepository]. *)
Definition fileCallback (repository : Repository) (refHash : string) (pattern : string)
    (lastTime : Time) (fName : string) (result : gmap string Time)
  : gmap string Time * option error :=
  if Contains fName pattern then
    match Log repository (mkLogOptions refHash fName) with
    | Err err => (result, Some err)
    | Ok iter => (fst (ForEach (commitCallback lastTime fName) iter result), None)
    end
  else (result, None).

(** The map [result] at the end of the traversal of the tree. The error
    of [ForEach] is the second component. *)
Definition scanTree (repository : Repository) (refHash : string) (pattern : string)
    (lastTime : Time) (tree : Tree) : gmap string Time * option error :=
  ForEach (fileCallback repository refHash pattern lastTime) (Files tree) ∅.

(** [fmt.Sprintf("%s in repository(%s) has changed in latest time(%s)\n", ...)] *)
Definition reportLine (key repos : string) (val : Time) : string :=
  key +:+ " in repository(" +:+ repos +:+ ") has changed in latest time("
      +:+ Format val DateFormat +:+ ")" +:+ String (ascii_of_nat 10) EmptyString.

(** The loop [for key, val := range result] over the entries in the
    order of the range. *)
Fixpoint writeLines (fd repos : string) (entries : list (string * Time)) : M unit :=
  match entries with
  | [] => ret tt
  | (key, val) :: entries' =>
      WriteString fd (reportLine key repos val) ;;;
      writeLines fd repos entries'
  end.

(** The end of [checkRepository]: the lines of [result], then an empty
    line when there was any; the error of that last write is not
    looked at. *)
Definition writeReport (env : Env) (fd repos : string) (result : gmap string Time) : M unit :=
  writeLines fd repos (range_result env (map_to_list result)) ;;;
  (if (0 <? Z.of_nat (size result))
   then ignore_err (WriteString fd (String (ascii_of_nat 10) EmptyString))
   else ret tt).

(** check if the config files in repository is changed *)
Definition checkRepository (env : Env) (c : Config) (repos url : string)
    (lastTime : Time) (fd : string) : M unit :=
  let dest := Join (Clone c) repos in
  (* clone the repository *)
  repository <~ PlainClone env dest url ;;
  (* record the local repository path *)
  (fun w => (Ok tt, mkWorld (files w) (dirs w) (denied w) (free w) (cleanPaths w ++ [dest]))) ;;;
  (* retrieving the branch by HEAD *)
  ref <~ lift (Head repository) ;;
  (* retrieving the commit object *)
  commit <~ lift (CommitObject repository ref) ;;
  (* retrieve the tree from the commit and file list *)
  tree <~ lift (CommitTree commit) ;;
  (* the value that ForEach returns is not used *)
  let result := fst (scanTree repository ref (Pattern c) lastTime tree) in
  writeReport env fd repos result.

Definition readCheckTime (env : Env) (filename : string) : M Time :=
  (* check if the file is existed *)
  fun w =>
    match Stat filename w with
    | (Err err, w') =>
        if IsNotExist err
        then (* 6 month ago *) (Ok (AddDate (Now env) 0 (-6) 0), w')
        else (Err err, w')
    | (Ok _, w') =>
        (* read the time from the check file *)
        (b <~ ReadFile filename ;;
         let data := TrimRight b (String (ascii_of_nat 10) EmptyString) in
         (* parse the string format to time.Time *)
         lift (Parse DateFormat data)) w'
    end.

Definition writeCheckTime (env : Env) (filename : string) : M unit :=
  (* open the file with truncate flag *)
  f <~ OpenFile filename ;;
  (* write the checking time *)
  ignore_err (WriteString f (Format (start env) DateFormat)).

(** prepare the result directory for storing the checking result every time *)
Definition prepareDir (dir : string) : M unit :=
  fun w =>
    match Stat dir w with
    | (Err err, w') => if IsNotExist err then Mkdir dir w' else (Err err, w')
    | (Ok _, w') => (Ok tt, w')
    end.

(** The loop of [main] over the repositories, in the order of the
    range. *)
Fixpoint checkAll (env : Env) (conf : Config) (lastTime : Time) (fd : string)
    (repositories : list (string * string)) : M unit :=
  match repositories with
  | [] => ret tt
  | (repos, url) :: repositories' =>
      checkRepository env conf repos url lastTime fd ;;;
      checkAll env conf lastTime fd repositories'
  end.

(** clean the local temporary repository *)
Definition cleanup (w : World) : World :=
  fold_left (fun w path => RemoveAll path w) (cleanPaths w) w.

(** [main]; [Err e] is [panic(e)]. What the program prints on the
    standard output is left out. *)
Definition main (env : Env) : M unit :=
  prepareDir resultDir ;;;
  (* read the last checking time *)
  lastTime <~ readCheckTime env checkFileName ;;
  (* parse the config file *)
  conf <~ parseYamlFile env configFileName ;;
  (* retrieve all the repositories *)
  repositories <~ retrieveRepositories env conf ;;
  let filename := resultDir +:+ "/" +:+ Format (start env) dayLayout +:+ ".txt" in
  (* create a new result file every date *)
  fd <~ OpenFile filename ;;
  defer cleanup
    ((* loop the repositories and check the config files *)
     checkAll env conf lastTime fd (range_repositories env (map_to_list repositories)) ;;;
     (* update the checking time for next checking *)
     writeCheckTime env checkFileName).

(** ** Vocabulary of the statements *)

(** A qualifying commit: authored strictly after the checkpoint. *)
Definition qualifies (lastTime : Time) (c : Commit) : Prop :=
  instant lastTime < instant (When (Author c)).

(** The commits that touch [path], as [repository.Log] yields them from
    [refHash]; none when the log cannot be retrieved. *)
Definition history (repository : Repository) (refHash path : string) : list Commit :=
  match Log repository (mkLogOptions refHash path) with
  | Ok commits => commits
  | Err _ => []
  end.

(** What one call of [commitCallback] does to the entry of its file. *)
Definition keep_latest (lastTime : Time) (o : option Time) (c : Commit) : option Time :=
  if 0 <? Sub (When (Author c)) lastTime then
    match o with
    | None => Some (When (Author c))
    | Some t => if 0 <? Sub (When (Author c)) t then Some (When (Author c)) else Some t
    end
  else o.

(** [repository] without the commits authored exactly at [t]. *)
Definition without_commits_at (t : Time) (repository : Repository) : Repository :=
  mkRepository (Head repository) (CommitObject repository)
    (fun o =>
       match Log repository o with
       | Ok commits =>
           Ok (List.filter (fun c => negb (instant (When (Author c)) =? instant t)) commits)
       | Err e => Err e
       end).

(** What [result] holds once the files [seen] have been visited. *)
Definition scanned (lastTime : Time) (repository : Repository) (refHash pattern : string)
    (seen : list string) (r : gmap string Time) : Prop :=
  ∀ path,
    (is_Some (r !! path) ↔
       path ∈ seen ∧ Contains path pattern = true
       ∧ ∃ c, c ∈ history repository refHash path ∧ qualifies lastTime c)
    ∧ ∀ v, r !! path = Some v →
        (∃ c, c ∈ history repository refHash path ∧ qualifies lastTime c
              ∧ When (Author c) = v)
        ∧ ∀ c, c ∈ history repository refHash path → qualifies lastTime c →
               instant (When (Author c)) <= instant v.

(** The text of the report lines of [entries], in their order. *)
Fixpoint lines_text (repos : string) (entries : list (string * Time)) : string :=
  match entries with
  | [] => EmptyString
  | (key, val) :: entries' => reportLine key repos val +:+ lines_text repos entries'
  end.

(** The line feed. *)
Definition LF : string := String (ascii_of_nat 10) EmptyString.

(** The part of [s] after its last byte [c]; all of [s] when [c] does
    not occur. *)
Fixpoint after_last (c : ascii) (s : string) : string :=
  match s with
  | EmptyString => EmptyString
  | String d s' =>
      if in_cutset c s' then after_last c s'
      else if Ascii.eqb d c then s' else s
  end.

(** The part of [s] before its first byte [c]; all of [s] when [c] does
    not occur. *)
Fixpoint before_first (c : ascii) (s : string) : string :=
  match s with
  | EmptyString => EmptyString
  | String d s' => if Ascii.eqb d c then EmptyString else String d (before_first c s')
  end.

(** The name of a repository, in the words of the claim: what follows
    the last "/" of the URL, cut at its first ".". *)
Definition name_of_url (url : string) : string :=
  before_first "." (after_last "/" url).

(** The first clone link whose printed form contains "https". *)
Fixpoint https_link (links : list Link) : option Link :=
  match links with
  | [] => None
  | link :: links' =>
      if Contains (Sprintf_v link) "https" then Some link else https_link links'
  end.

(** The map that [retrieveRepositories] builds from the listed items. *)
Definition collect (items : list Item) (repositories : gmap string string)
  : gmap string string :=
  fold_left (fun repositories item => cloneLinks (Links_clone item) repositories)
            items repositories.

(** [w'] differs from [w] in the contents of [fd] and in the free space
    at most. *)
Definition same_but (fd : string) (w w' : World) : Prop :=
  (∀ k, k ≠ fd → files w' !! k = files w !! k)
  ∧ (is_Some (files w !! fd) → is_Some (files w' !! fd))
  ∧ dirs w' = dirs w ∧ denied w' = denied w ∧ cleanPaths w' = cleanPaths w.




(** [k] line feeds. *)
Fixpoint newlines (k : nat) : string :=
  match k with
  | O => EmptyString
  | S k' => String (ascii_of_nat 10) (newlines k')
  end.

(** The world [w] with the check file holding [b]. *)
Definition with_check (b : string) (w : World) : World :=
  mkWorld (<[checkFileName := b]> (files w)) (dirs w) (denied w) (free w) (cleanPaths w).

(** [P] holds of z, z+1, ..., z+n-1. *)
Fixpoint all_from (n : nat) (z : Z) (P : Z → bool) : bool :=
  match n with
  | O => true
  | S n' => P z && all_from n' (z + 1) P
  end.

(** Day [d] is a day of its month, and [Date] counts back to it. *)
Definition calendar_ok (d : Z) : bool :=
  let '(year, yday) := absDate d in
  let '(month, day) := monthDay year yday in
  (1 <=? month) && (month <=? 12) && (1 <=? day) && (day <=? daysIn month year)
  && (daysSinceEpoch year + at_ daysBefore (month - 1)
      + (if isLeap year && (3 <=? month) then 1 else 0) + (day - 1) =? d).

(** The year of [t] in its location. *)
Definition year_of (t : Time) : Z := fst (fst (date t)).

(** The times that the layout [DateFormat] can express apart from their
    nanoseconds: a year of four digits and an offset of whole minutes
    within a day. *)
Definition expressible (t : Time) : Prop :=
  0 <= year_of t <= 9999
  ∧ offset t mod 60 = 0
  ∧ -86400 < offset t < 86400.

(** [DateFormat] up to its last element, the zone. *)
Definition before_zone : list chunk :=
  [stdWeekDay; Lit " "; stdMonth; Lit " "; stdZeroDay; Lit " ";
   stdHour; Lit ":"; stdZeroMinute; Lit ":"; stdZeroSecond; Lit " ";
   stdLongYear; Lit " "].

(** Two and four decimal digits in front of [rest]. *)
Definition two (n : Z) (rest : string) : string :=
  String (digit (n / 10)) (String (digit (n mod 10)) rest).

Definition four (n : Z) (rest : string) : string :=
  String (digit (n / 1000)) (String (digit (n / 100 mod 10))
    (String (digit (n / 10 mod 10)) (String (digit (n mod 10)) rest))).

(** ** Sample inputs *)

Module Sample.

Definition at_sec (s : Z) : Time := mkTime s 0 28800.

Definition commit_at (s : Z) : Commit :=
  mkCommit (mkSignature (at_sec s)) (Err (ErrGit "not loaded")).

Definition tree1 : Tree := mkTree ["pkg/conf/app.yml"; "README.md"; "conf/b.yml"].

Definition head_commit : Commit := mkCommit (mkSignature (at_sec 3000)) (Ok tree1).

(** A repository whose logs can all be read. *)
Definition sound_repo : Repository :=
  mkRepository (Ok "h1") (fun _ => Ok head_commit)
    (fun o =>
       if String.eqb (FileName o) "pkg/conf/app.yml" then Ok [commit_at 2000; commit_at 1000; commit_at 500]
       else if String.eqb (FileName o) "conf/b.yml" then Ok [commit_at 3000; commit_at 1000]
       else Ok [commit_at 5000]).

(** A repository where the log of the first configuration file cannot
    be read. *)
Definition broken_repo : Repository :=
  mkRepository (Ok "h1") (fun _ => Ok head_commit)
    (fun o =>
       if String.eqb (FileName o) "pkg/conf/app.yml" then Err (ErrGit "object not found")
       else if String.eqb (FileName o) "conf/b.yml" then Ok [commit_at 3000; commit_at 1000]
       else Ok [commit_at 5000]).

Definition conf1 : Config := mkConfig "user" "secret" "owner" "/tmp/clone" "conf".

Definition env1 (repository : Repository) : Env :=
  mkEnv (at_sec 1793459045) (at_sec 1793459050)
        (fun _ => Ok conf1)
        (fun _ => Ok [])
        (fun _ => Ok repository)
        (fun l => l) (fun l => l).

(** The same, with maps ranged over from the last entry to the first. *)
Definition env1_rev (repository : Repository) : Env :=
  mkEnv (at_sec 1793459045) (at_sec 1793459050)
        (fun _ => Ok conf1)
        (fun _ => Ok [])
        (fun _ => Ok repository)
        (@rev _) (@rev _).

Definition result2 : gmap string Time :=
  {[ "conf/a.yml" := at_sec 2000; "conf/b.yml" := at_sec 3000 ]}.

Definition link_ssh : Link := mkLink "git@bitbucket.org:wesure/alert-enricher.git" "ssh".
Definition link_https : Link :=
  mkLink "https://wesure@bitbucket.org/wesure/alert-enricher.git" "https".

(** A first run: a configuration file and nothing else. *)
Definition world_first : World :=
  mkWorld {[ "config.yml" := "user: u" ]} ∅ ∅ 1000 [].

(** A later run whose check file does not hold a time. *)
Definition world_corrupt : World :=
  mkWorld {[ "config.yml" := "user: u"; "check.txt" := "yesterday" ]} ∅ ∅ 1000 [].


(** An account with one repository. *)
Definition env_one (repository : result Repository) : Env :=
  mkEnv (at_sec 1793459045) (at_sec 1793459050)
        (fun _ => Ok conf1)
        (fun _ => Ok [mkItem [link_ssh; link_https]])
        (fun _ => repository)
        (fun l => l) (fun l => l).

(** The carriage return. *)
Definition CR : string := String (ascii_of_nat 13) EmptyString.

(** A world with an open, empty report [r.txt] and room for it. *)
Definition world1 : World :=
  mkWorld {[ "r.txt" := EmptyString ]} ∅ ∅ 1000 [].

End Sample.

(** * Properties *)

(** ** Strings *)

Section StringFacts.

Lemma app_cons (c : ascii) (a b : string) : String c a +:+ b = String c (a +:+ b).
Proof. reflexivity. Qed.

Lemma app_empty_l (b : string) : EmptyString +:+ b = b.
Proof. reflexivity. Qed.

Lemma app_empty_r (a : string) : a +:+ EmptyString = a.
Proof. induction a as [|c a IH]; [reflexivity|]. rewrite app_cons, IH. reflexivity. Qed.

Lemma app_assoc' (a b c : string) : (a +:+ b) +:+ c = a +:+ (b +:+ c).
Proof.
  induction a as [|x a IH]; [reflexivity|].
  rewrite !app_cons, IH. reflexivity.
Qed.

Lemma app_length' (a b : string) :
  String.length (a +:+ b) = (String.length a + String.length b)%nat.
Proof.
  induction a as [|x a IH]; [reflexivity|].
  rewrite app_cons. simpl. rewrite IH. reflexivity.
Qed.

Lemma HasPrefix_app (p b : string) : HasPrefix (p +:+ b) p = true.
Proof.
  induction p as [|c p IH]; [reflexivity|].
  rewrite app_cons. simpl. rewrite Ascii.eqb_refl. exact IH.
Qed.

Lemma HasPrefix_inv (s p : string) :
  HasPrefix s p = true → ∃ b, s = p +:+ b.
Proof.
  revert s. induction p as [|c p IH]; intros s H.
  - exists s. reflexivity.
  - destruct s as [|d s]; simpl in H; [discriminate|].
    destruct (Ascii.eqb d c) eqn:E; [|discriminate].
    apply Ascii.eqb_eq in E. subst d.
    destruct (IH _ H) as [b ->]. exists b. reflexivity.
Qed.

Lemma Index_lower (s sub : string) : -1 <= Index s sub.
Proof.
  induction s as [|c s IH]; simpl.
  - destruct (HasPrefix _ _); lia.
  - destruct (HasPrefix _ _); [lia|].
    destruct (Index s sub <? 0) eqn:E; [lia|]. apply Z.ltb_ge in E. lia.
Qed.

Lemma Index_found (s sub : string) :
  0 <= Index s sub → ∃ a b, s = a +:+ sub +:+ b ∧ len a = Index s sub.
Proof.
  induction s as [|c s IH]; simpl.
  - destruct (HasPrefix "" sub) eqn:E; [|lia].
    intros _. apply HasPrefix_inv in E as [b Hb].
    exists EmptyString, b. split; [exact Hb | reflexivity].
  - destruct (HasPrefix (String c s) sub) eqn:E.
    + intros _. apply HasPrefix_inv in E as [b Hb].
      exists EmptyString, b. split; [exact Hb | reflexivity].
    + destruct (Index s sub <? 0) eqn:E'; [lia|]. intros _.
      apply Z.ltb_ge in E'. destruct (IH E') as (a & b & Hs & Hl).
      exists (String c a), b. split.
      * rewrite app_cons, <- Hs. reflexivity.
      * unfold len in *. simpl String.length. lia.
Qed.

Lemma Index_HasPrefix (s sub : string) : HasPrefix s sub = true → Index s sub = 0.
Proof. intros H. destruct s; simpl; rewrite H; reflexivity. Qed.

Lemma Index_cons_lower (c : ascii) (s sub : string) :
  0 <= Index s sub → 0 <= Index (String c s) sub.
Proof.
  intros H. simpl. destruct (HasPrefix _ _); [lia|].
  destruct (Index s sub <? 0) eqn:E; [apply Z.ltb_lt in E|]; lia.
Qed.

Lemma Index_substring (a sub b : string) : 0 <= Index (a +:+ sub +:+ b) sub.
Proof.
  induction a as [|c a IH].
  - rewrite app_empty_l, Index_HasPrefix; [lia | apply HasPrefix_app].
  - rewrite app_cons. apply Index_cons_lower, IH.
Qed.

(** [strings.Contains] is the substring test: byte for byte, so upper
    and lower case differ. *)
Lemma Contains_substring (s sub : string) :
  Contains s sub = true ↔ ∃ a b, s = a +:+ sub +:+ b.
Proof.
  unfold Contains. rewrite Z.leb_le. split.
  - intros H. destruct (Index_found _ _ H) as (a & b & Hs & _). eauto.
  - intros (a & b & ->). apply Index_substring.
Qed.

End StringFacts.

(** ** Times *)

Section TimeFacts.

(** [t.Sub(u) > 0] says that [t] is after [u], also when the difference
    does not fit in a [Duration]. *)
Lemma Sub_pos (t u : Time) : (0 <? Sub t u) = true ↔ instant u < instant t.
Proof.
  unfold Sub, minDuration, maxDuration. rewrite Z.ltb_lt.
  destruct (instant t - instant u <? - 2 ^ 63) eqn:E1.
  - apply Z.ltb_lt in E1. lia.
  - apply Z.ltb_ge in E1.
    destruct (2 ^ 63 - 1 <? instant t - instant u) eqn:E2.
    + apply Z.ltb_lt in E2. lia.
    + apply Z.ltb_ge in E2. lia.
Qed.

Lemma Sub_not_pos (t u : Time) : (0 <? Sub t u) = false ↔ instant t <= instant u.
Proof.
  destruct (0 <? Sub t u) eqn:E.
  - apply Sub_pos in E. split; [discriminate | lia].
  - split; [|reflexivity]. intros _.
    destruct (Z_lt_le_dec (instant u) (instant t)) as [Hlt|Hle]; [|exact Hle].
    apply Sub_pos in Hlt. congruence.
Qed.

End TimeFacts.

(** ** The change detector *)

Section Detector.

Variable lastTime : Time.

Lemma keep_latest_none (o : option Time) (c : Commit) :
  keep_latest lastTime o c = None ↔ o = None ∧ ¬ qualifies lastTime c.
Proof.
  unfold keep_latest, qualifies.
  destruct (0 <? Sub (When (Author c)) lastTime) eqn:E.
  - apply Sub_pos in E. split.
    + destruct o as [t|]; [destruct (0 <? Sub _ t)|]; discriminate.
    + intros [_ H]. contradiction.
  - apply Sub_not_pos in E. split; [intros ->; split; [reflexivity | lia] | intros [-> _]; reflexivity].
Qed.

Lemma keep_latest_some (o : option Time) (c : Commit) (v : Time) :
  keep_latest lastTime o c = Some v →
  (o = Some v ∨ (qualifies lastTime c ∧ When (Author c) = v))
  ∧ (∀ t, o = Some t → instant t <= instant v)
  ∧ (qualifies lastTime c → instant (When (Author c)) <= instant v).
Proof.
  unfold keep_latest, qualifies.
  destruct (0 <? Sub (When (Author c)) lastTime) eqn:E.
  - apply Sub_pos in E. destruct o as [t|].
    + destruct (0 <? Sub (When (Author c)) t) eqn:E'; intros [= <-].
      * apply Sub_pos in E'. repeat split; [right; auto | intros ? [= <-]; lia | lia].
      * apply Sub_not_pos in E'. repeat split; [left; auto | intros ? [= <-]; lia | lia].
    + intros [= <-]. repeat split; [right; auto | discriminate | lia].
  - apply Sub_not_pos in E. intros ->.
    repeat split; [left; auto | intros ? [= <-]; lia | lia].
Qed.

(** The fold of [keep_latest] over a log yields nothing exactly when it
    starts from nothing and no commit qualifies. *)
Lemma latest_none (cs : list Commit) (o : option Time) :
  fold_left (keep_latest lastTime) cs o = None ↔
  o = None ∧ ∀ c, c ∈ cs → ¬ qualifies lastTime c.
Proof.
  revert o. induction cs as [|c cs IH]; intros o; simpl.
  - split; [intros ->; split; [reflexivity|] | intros [-> _]; reflexivity].
    intros c Hc. inversion Hc.
  - rewrite IH, keep_latest_none. split.
    + intros [[-> Hc] Hcs]. split; [reflexivity|].
      intros c' Hc'. apply elem_of_cons in Hc' as [-> | Hc']; auto.
    + intros [-> H]. repeat split.
      * apply H. left.
      * intros c' Hc'. apply H. right. exact Hc'.
Qed.

(** Otherwise it yields the start value or the author time of a
    qualifying commit, and no qualifying commit is later. *)
Lemma latest_some (cs : list Commit) (o : option Time) (v : Time) :
  fold_left (keep_latest lastTime) cs o = Some v →
  (o = Some v ∨ ∃ c, c ∈ cs ∧ qualifies lastTime c ∧ When (Author c) = v)
  ∧ (∀ t, o = Some t → instant t <= instant v)
  ∧ (∀ c, c ∈ cs → qualifies lastTime c → instant (When (Author c)) <= instant v).
Proof.
  revert o. induction cs as [|c cs IH]; intros o; simpl.
  - intros ->. repeat split; [left; reflexivity | intros ? [= <-]; lia |].
    intros c Hc. inversion Hc.
  - intros H. destruct (IH _ H) as (Hsrc & Hlow & Hup).
    assert (Hstep : ∀ w, keep_latest lastTime o c = Some w → instant w <= instant v)
      by (intros w Hw; apply Hlow; exact Hw).
    repeat split.
    + destruct Hsrc as [Hsrc | (c' & Hc' & Hq & Hv)].
      * destruct (keep_latest_some _ _ _ Hsrc) as ([-> | [Hq Hv]] & _ & _);
          [left; reflexivity | right; exists c; repeat split; [left | | ]; assumption].
      * right. exists c'. repeat split; [right | | ]; assumption.
    + intros t ->.
      destruct (keep_latest lastTime (Some t) c) as [w|] eqn:Ew.
      * destruct (keep_latest_some _ _ _ Ew) as (_ & Hl & _).
        specialize (Hl t eq_refl). specialize (Hstep w eq_refl). lia.
      * apply keep_latest_none in Ew as [? _]. discriminate.
    + intros c' Hc' Hq. apply elem_of_cons in Hc' as [-> | Hc']; [|apply Hup; assumption].
      destruct (keep_latest lastTime o c) as [w|] eqn:Ew.
      * destruct (keep_latest_some _ _ _ Ew) as (_ & _ & Hl).
        specialize (Hl Hq). specialize (Hstep w eq_refl). lia.
      * apply keep_latest_none in Ew as [_ Hn]. contradiction.
Qed.

(** One call of [commitCallback] touches the entry of its file only,
    and never fails. *)
Lemma commitCallback_spec (f : string) (c : Commit) (r : gmap string Time) :
  ∃ r', commitCallback lastTime f c r = (r', None)
        ∧ r' !! f = keep_latest lastTime (r !! f) c
        ∧ ∀ g, g ≠ f → r' !! g = r !! g.
Proof.
  unfold commitCallback, keep_latest.
  destruct (0 <? Sub (When (Author c)) lastTime).
  - destruct (r !! f) as [t|] eqn:Ef.
    + destruct (0 <? Sub (When (Author c)) t).
      * eexists; repeat split; [apply lookup_insert_eq | intros; by apply lookup_insert_ne].
      * eexists; repeat split; [exact Ef].
    + eexists; repeat split; [apply lookup_insert_eq | intros; by apply lookup_insert_ne].
  - eexists; repeat split.
Qed.

Lemma commits_ForEach (f : string) (cs : list Commit) (r : gmap string Time) :
  ∃ r', ForEach (commitCallback lastTime f) cs r = (r', None)
        ∧ r' !! f = fold_left (keep_latest lastTime) cs (r !! f)
        ∧ ∀ g, g ≠ f → r' !! g = r !! g.
Proof.
  revert r. induction cs as [|c cs IH]; intros r; simpl.
  - exists r. repeat split.
  - destruct (commitCallback_spec f c r) as (r1 & -> & Hf & Hg).
    destruct (IH r1) as (r2 & -> & Hf2 & Hg2).
    exists r2. repeat split.
    + rewrite Hf2, Hf. reflexivity.
    + intros g Hne. rewrite Hg2, Hg by assumption. reflexivity.
Qed.

Variable repository : Repository.
Variables refHash pattern : string.

Local Abbreviation scanned := (scanned lastTime repository refHash pattern).

Lemma scanned_step (seen : list string) (r r' : gmap string Time) (f : string) :
  scanned seen r →
  fileCallback repository refHash pattern lastTime f r = (r', None) →
  scanned (seen ++ [f]) r'.
Proof.
  intros Hinv. unfold fileCallback.
  destruct (Contains f pattern) eqn:Ec.
  - destruct (Log repository (mkLogOptions refHash f)) as [cs|e] eqn:El; [|discriminate].
    destruct (commits_ForEach f cs r) as (r1 & Hr1 & Hf & Hg).
    rewrite Hr1. simpl. intros [= <-].
    assert (Hh : history repository refHash f = cs) by (unfold history; rewrite El; reflexivity).
    intros path. destruct (decide (path = f)) as [-> | Hne].
    + rewrite Hf, Hh. destruct (Hinv f) as [Hin Hval]. rewrite Hh in Hin, Hval.
      split.
      * split.
        -- intros [v Hv]. repeat split; [apply elem_of_app; right; left | exact Ec |].
           destruct (latest_some _ _ _ Hv) as ([Ho | (c & Hc & Hq & _)] & _ & _).
           ++ destruct (Hval v Ho) as [(c & Hc & Hq & _) _]. eauto.
           ++ eauto.
        -- intros (_ & _ & c & Hc & Hq).
           destruct (fold_left (keep_latest lastTime) cs (r !! f)) as [v|] eqn:Ev; [eauto|].
           apply latest_none in Ev as [_ Hn]. exfalso. exact (Hn c Hc Hq).
      * intros v Hv. destruct (latest_some _ _ _ Hv) as (Hsrc & Hlow & Hup).
        split; [|exact Hup].
        destruct Hsrc as [Ho | (c & Hc & Hq & Hw)]; [|eauto].
        destruct (Hval v Ho) as [Hex _]. exact Hex.
    + rewrite (Hg path Hne). destruct (Hinv path) as [Hin Hval]. split; [|exact Hval].
      rewrite Hin. rewrite elem_of_app, list_elem_of_singleton. tauto.
  - intros [= <-]. intros path. destruct (Hinv path) as [Hin Hval]. split; [|exact Hval].
    rewrite Hin. rewrite elem_of_app, list_elem_of_singleton. split.
    + tauto.
    + intros ([H | ->] & Hc & Hex); [tauto | congruence].
Qed.

Lemma scanned_ForEach (fs seen : list string) (r r' : gmap string Time) :
  scanned seen r →
  ForEach (fileCallback repository refHash pattern lastTime) fs r = (r', None) →
  scanned (seen ++ fs) r'.
Proof.
  revert seen r. induction fs as [|f fs IH]; intros seen r Hinv; simpl.
  - intros [= <-]. rewrite app_nil_r. exact Hinv.
  - destruct (fileCallback repository refHash pattern lastTime f r) as [r1 [e|]] eqn:Ef;
      [discriminate|].
    intros H. replace (seen ++ f :: fs) with ((seen ++ [f]) ++ fs)
      by (rewrite <- app_assoc; reflexivity).
    eapply IH; [|exact H]. eapply scanned_step; eassumption.
Qed.

Lemma scanned_empty : scanned [] ∅.
Proof.
  intros path. split.
  - rewrite lookup_empty. split; [intros [? ?]; discriminate|].
    intros (H & _). inversion H.
  - intros v. rewrite lookup_empty. discriminate.
Qed.

End Detector.

(** When every log of the traversal can be read (the traversal ends
    without an error), [result] has an entry for a path exactly when the
    path is in the tree, contains the pattern byte for byte, and the log
    of the path has a commit authored strictly after the checkpoint; the
    time of the entry is the author time of such a commit and no such
    commit is later. *)
Theorem scanTree_latest_when_logs_read
    (repository : Repository) (refHash pattern : string) (lastTime : Time)
    (tree : Tree) (path : string) :
  snd (scanTree repository refHash pattern lastTime tree) = None →
  let result := fst (scanTree repository refHash pattern lastTime tree) in
  (is_Some (result !! path) ↔
     path ∈ Files tree
     ∧ (∃ a b, path = a +:+ pattern +:+ b)
     ∧ ∃ c, c ∈ history repository refHash path
            ∧ instant lastTime < instant (When (Author c)))
  ∧ ∀ v, result !! path = Some v →
      (∃ c, c ∈ history repository refHash path
            ∧ instant lastTime < instant (When (Author c))
            ∧ When (Author c) = v)
      ∧ ∀ c, c ∈ history repository refHash path →
             instant lastTime < instant (When (Author c)) →
             instant (When (Author c)) <= instant v.
Proof.
  intros Hok result.
  assert (Hs : scanned lastTime repository refHash pattern ([] ++ Files tree) result).
  { eapply scanned_ForEach; [apply scanned_empty|].
    unfold result, scanTree in *.
    destruct (ForEach _ (Files tree) ∅) as [r e]. simpl in *. subst e. reflexivity. }
  destruct (Hs path) as [Hin Hval]. split.
  - rewrite Hin, Contains_substring. reflexivity.
  - exact Hval.
Qed.

Lemma scanTree_latest_when_logs_read_witness :
  fst (scanTree Sample.sound_repo "h1" "conf" (Sample.at_sec 1200) Sample.tree1)
    !! "pkg/conf/app.yml" = Some (Sample.at_sec 2000)
  ∧ ∀ c, c ∈ history Sample.sound_repo "h1" "pkg/conf/app.yml" →
         instant (Sample.at_sec 1200) < instant (When (Author c)) →
         instant (When (Author c)) <= instant (Sample.at_sec 2000).
Proof.
  assert (Hv : fst (scanTree Sample.sound_repo "h1" "conf" (Sample.at_sec 1200) Sample.tree1)
                 !! "pkg/conf/app.yml" = Some (Sample.at_sec 2000)) by (vm_compute; reflexivity).
  split; [exact Hv|].
  refine (proj2 (proj2 (scanTree_latest_when_logs_read Sample.sound_repo "h1" "conf"
            (Sample.at_sec 1200) Sample.tree1 "pkg/conf/app.yml" _) _ Hv)).
  vm_compute. reflexivity.
Defined.

(** C1. The result of the detection is not the one the claim
    describes on every snapshot: on [Sample.broken_repo] the log of the
    first configuration file cannot be read, the traversal stops there,
    and conf/b.yml, which is in the tree, contains the pattern and has a
    commit after the checkpoint, has no entry in [result]. On
    [Sample.sound_repo], which differs in that log only, it has the entry
    of its latest commit. *)
Theorem C1_entry_missing_after_log_error :
  "conf/b.yml" ∈ Files Sample.tree1
  ∧ Contains "conf/b.yml" "conf" = true
  ∧ (∃ c, c ∈ history Sample.broken_repo "h1" "conf/b.yml"
          ∧ instant (Sample.at_sec 1200) < instant (When (Author c)))
  ∧ fst (scanTree Sample.broken_repo "h1" "conf" (Sample.at_sec 1200) Sample.tree1)
      !! "conf/b.yml" = None
  ∧ fst (scanTree Sample.sound_repo "h1" "conf" (Sample.at_sec 1200) Sample.tree1)
      !! "conf/b.yml" = Some (Sample.at_sec 3000).
Proof.
  split; [|split; [|split; [|split]]].
  - unfold Sample.tree1. cbn [Files]. do 2 right. left.
  - vm_compute. reflexivity.
  - exists (Sample.commit_at 3000). split.
    + change (history Sample.broken_repo "h1" "conf/b.yml")
        with [Sample.commit_at 3000; Sample.commit_at 1000]. left.
    + vm_compute. reflexivity.
  - vm_compute. reflexivity.
  - vm_compute. reflexivity.
Qed.

Lemma ForEach_ext {A S} (cb1 cb2 : A → S → S * option error) (xs : list A) (st : S) :
  (∀ x s, cb1 x s = cb2 x s) → ForEach cb1 xs st = ForEach cb2 xs st.
Proof.
  intros Hext. revert st. induction xs as [|x xs IH]; intros st; simpl; [reflexivity|].
  rewrite Hext. destruct (cb2 x st) as [st' [e|]]; [reflexivity | apply IH].
Qed.

Lemma commitCallback_at_checkpoint (lastTime : Time) (f : string) (c : Commit)
    (r : gmap string Time) :
  instant (When (Author c)) = instant lastTime →
  commitCallback lastTime f c r = (r, None).
Proof.
  intros H. unfold commitCallback.
  assert (E : (0 <? Sub (When (Author c)) lastTime) = false) by (apply Sub_not_pos; lia).
  rewrite E. reflexivity.
Qed.

Lemma commits_ForEach_filter (lastTime : Time) (f : string) (cs : list Commit)
    (r : gmap string Time) :
  ForEach (commitCallback lastTime f)
          (List.filter (fun c => negb (instant (When (Author c)) =? instant lastTime)) cs) r
  = ForEach (commitCallback lastTime f) cs r.
Proof.
  revert r. induction cs as [|c cs IH]; intros r; simpl; [reflexivity|].
  destruct (instant (When (Author c)) =? instant lastTime) eqn:E; simpl.
  - apply Z.eqb_eq in E. rewrite (commitCallback_at_checkpoint _ _ _ _ E). apply IH.
  - destruct (commitCallback lastTime f c r) as [r' [e|]]; [reflexivity | apply IH].
Qed.

(** C2. A commit authored exactly at the checkpoint does not qualify:
    its callback leaves [result] as it is, and the whole detection
    gives the same map and the same error on the repository without the
    commits authored at the checkpoint. *)
Theorem C2_commit_at_checkpoint_contributes_nothing
    (repository : Repository) (refHash pattern : string) (lastTime : Time) (tree : Tree) :
  (∀ f c r, instant (When (Author c)) = instant lastTime →
            ¬ qualifies lastTime c ∧ commitCallback lastTime f c r = (r, None))
  ∧ scanTree (without_commits_at lastTime repository) refHash pattern lastTime tree
    = scanTree repository refHash pattern lastTime tree.
Proof.
  split.
  - intros f c r H. split; [unfold qualifies; lia | apply commitCallback_at_checkpoint, H].
  - unfold scanTree. apply ForEach_ext. intros f r.
    unfold fileCallback, without_commits_at. simpl.
    destruct (Contains f pattern); [|reflexivity].
    destruct (Log repository _) as [cs|e]; [|reflexivity].
    rewrite commits_ForEach_filter. reflexivity.
Qed.

Lemma C2_witness :
  commitCallback (Sample.at_sec 2000) "pkg/conf/app.yml" (Sample.commit_at 2000) ∅ = (∅, None).
Proof.
  apply (proj1 (C2_commit_at_checkpoint_contributes_nothing
                  Sample.sound_repo "h1" "conf" (Sample.at_sec 2000) Sample.tree1)
               "pkg/conf/app.yml" (Sample.commit_at 2000) ∅).
  reflexivity.
Defined.

(** C3. The error of a log that cannot be retrieved gets lost: on
    [Sample.broken_repo] the traversal stops with the error of
    [repository.Log] at the first configuration file, yet
    [checkRepository] returns no error and reports nothing, although
    conf/b.yml has a commit after the checkpoint (which is reported for
    [Sample.sound_repo]). *)
Theorem C3_log_error_is_not_returned :
  let run repository :=
    checkRepository (Sample.env1 repository) Sample.conf1 "repo" "https://host/repo.git"
                    (Sample.at_sec 1200) "r.txt" Sample.world1 in
  snd (scanTree Sample.broken_repo "h1" "conf" (Sample.at_sec 1200) Sample.tree1)
    = Some (ErrGit "object not found")
  ∧ fst (run Sample.broken_repo) = Ok tt
  ∧ files (snd (run Sample.broken_repo)) !! "r.txt" = Some EmptyString
  ∧ files (snd (run Sample.sound_repo)) !! "r.txt" =
      Some ("conf/b.yml in repository(repo) has changed in latest time(Thu Jan 01 08:50:00 1970 +0800)"
            +:+ LF +:+
            "pkg/conf/app.yml in repository(repo) has changed in latest time(Thu Jan 01 08:33:20 1970 +0800)"
            +:+ LF +:+ LF).
Proof. vm_compute. repeat split; reflexivity. Qed.

(** ** The report *)

Section Report.

Lemma take_bytes_all (s : string) (n : nat) :
  (String.length s <= n)%nat → take_bytes n s = s.
Proof.
  revert n. induction s as [|c s IH]; intros n H.
  - destruct n; reflexivity.
  - destruct n; simpl in *; [lia|]. rewrite IH by lia. reflexivity.
Qed.

(** A write that fits appends its bytes and takes them from the free
    space. *)
Lemma WriteString_fits (fd s old : string) (w : World) :
  files w !! fd = Some old →
  (String.length s <= free w)%nat →
  WriteString fd s w =
    (Ok (len s),
     mkWorld (<[fd := old +:+ s]> (files w)) (dirs w) (denied w)
             (free w - String.length s)%nat (cleanPaths w)).
Proof.
  intros Hfd Hroom. unfold WriteString. rewrite Hfd.
  rewrite Nat.min_l by exact Hroom. rewrite take_bytes_all by lia.
  destruct (String.length s <? String.length s)%nat eqn:E; [|reflexivity].
  apply Nat.ltb_lt in E. lia.
Qed.

Lemma writeLines_fits (fd repos old : string) (entries : list (string * Time)) (w : World) :
  files w !! fd = Some old →
  (String.length (lines_text repos entries) <= free w)%nat →
  writeLines fd repos entries w =
    (Ok tt,
     mkWorld (<[fd := old +:+ lines_text repos entries]> (files w)) (dirs w) (denied w)
             (free w - String.length (lines_text repos entries))%nat (cleanPaths w)).
Proof.
  revert old w. induction entries as [|[key val] entries IH]; intros old w Hfd Hroom.
  - simpl. unfold ret. rewrite app_empty_r, Nat.sub_0_r.
    rewrite insert_id by exact Hfd. destruct w; reflexivity.
  - simpl in *. rewrite app_length' in Hroom.
    unfold bind. rewrite (WriteString_fits _ _ old) by (assumption || lia).
    rewrite (IH (old +:+ reportLine key repos val)); simpl.
    + rewrite insert_insert_eq, app_assoc', app_length'. do 2 f_equal. lia.
    + apply lookup_insert_eq.
    + lia.
Qed.

Lemma size_nonempty (result : gmap string Time) :
  result ≠ ∅ → (0 <? Z.of_nat (size result)) = true.
Proof.
  intros Hne. apply Z.ltb_lt. destruct (size result) eqn:Es; [|lia].
  apply map_size_empty_iff in Es. contradiction.
Qed.

Lemma writeReport_empty (env : Env) (fd repos : string) (w : World) :
  range_ok env → writeReport env fd repos ∅ w = (Ok tt, w).
Proof.
  intros [Hperm _]. unfold writeReport. rewrite map_to_list_empty.
  assert (E : range_result env [] = []) by (apply Permutation_nil_r, Hperm).
  rewrite E. reflexivity.
Qed.

Lemma writeReport_nonempty (env : Env) (fd repos old : string) (result : gmap string Time)
    (w : World) :
  result ≠ ∅ →
  files w !! fd = Some old →
  (String.length (lines_text repos (range_result env (map_to_list result))) + 1 <= free w)%nat →
  fst (writeReport env fd repos result w) = Ok tt
  ∧ files (snd (writeReport env fd repos result w)) !! fd
    = Some (old +:+ lines_text repos (range_result env (map_to_list result)) +:+ LF).
Proof.
  intros Hne Hfd Hroom. unfold writeReport, bind.
  rewrite (writeLines_fits _ _ old) by (assumption || lia).
  rewrite (size_nonempty _ Hne). unfold ignore_err. split; [reflexivity|].
  rewrite (WriteString_fits _ _ (old +:+ lines_text repos (range_result env (map_to_list result)))).
  - simpl. rewrite lookup_insert_eq, app_assoc'. reflexivity.
  - simpl. apply lookup_insert_eq.
  - simpl. lia.
Qed.

End Report.

(** C8. For a report that is open with contents [old] on a device with
    room: an empty result leaves the world as it is; otherwise the
    report gains one line per entry of the result, each of the form
    "<path> in repository(<name>) has changed in latest time(<time>)",
    and one empty line after them. *)
Theorem C8_report_block (env : Env) (fd repos old : string) (result : gmap string Time)
    (w : World) :
  range_ok env →
  files w !! fd = Some old →
  (String.length (lines_text repos (range_result env (map_to_list result))) + 1 <= free w)%nat →
  (∀ key val,
      reportLine key repos val =
        key +:+ " in repository(" +:+ repos +:+ ") has changed in latest time("
            +:+ Format val DateFormat +:+ ")" +:+ LF)
  ∧ (result = ∅ → writeReport env fd repos result w = (Ok tt, w))
  ∧ (result ≠ ∅ →
     ∃ entries,
       entries ≡ₚ map_to_list result
       ∧ length entries = size result
       ∧ fst (writeReport env fd repos result w) = Ok tt
       ∧ files (snd (writeReport env fd repos result w)) !! fd
         = Some (old +:+ lines_text repos entries +:+ LF)).
Proof.
  intros Hok Hfd Hroom. split; [reflexivity|]. split.
  - intros ->. apply writeReport_empty, Hok.
  - intros Hne. exists (range_result env (map_to_list result)).
    destruct Hok as [Hperm _].
    split; [apply Hperm|]. split.
    { rewrite (Permutation_length (Hperm _)). apply length_map_to_list. }
    apply (writeReport_nonempty env fd repos old result w Hne Hfd Hroom).
Qed.

Lemma Sample_range_ok (repository : Repository) : range_ok (Sample.env1 repository).
Proof. split; intros l; reflexivity. Qed.

Lemma Sample_range_rev_ok (repository : Repository) : range_ok (Sample.env1_rev repository).
Proof. split; intros l; simpl; symmetry; apply Permutation_rev. Qed.

Lemma C8_witness :
  ∃ entries,
    entries ≡ₚ map_to_list Sample.result2
    ∧ length entries = size Sample.result2
    ∧ fst (writeReport (Sample.env1 Sample.sound_repo) "r.txt" "repo" Sample.result2
                       Sample.world1) = Ok tt
    ∧ files (snd (writeReport (Sample.env1 Sample.sound_repo) "r.txt" "repo" Sample.result2
                              Sample.world1)) !! "r.txt"
      = Some (EmptyString +:+ lines_text "repo" entries +:+ LF).
Proof.
  refine (proj2 (proj2 (C8_report_block (Sample.env1 Sample.sound_repo) "r.txt" "repo"
            EmptyString Sample.result2 Sample.world1 _ _ _)) _).
  - apply Sample_range_ok.
  - vm_compute. reflexivity.
  - vm_compute. lia.
  - intros H. apply (f_equal size) in H. vm_compute in H. discriminate.
Defined.

(** C4, as stated, fails: two runs that range over the same result in
    different orders write different report texts. *)
Lemma C4_counterexample :
  ¬ (∀ (env env' : Env) (fd repos : string) (result : gmap string Time) (w : World),
       range_ok env → range_ok env' →
       files (snd (writeReport env fd repos result w)) !! fd
       = files (snd (writeReport env' fd repos result w)) !! fd).
Proof.
  intros H.
  specialize (H (Sample.env1 Sample.sound_repo) (Sample.env1_rev Sample.sound_repo)
                "r.txt" "repo" Sample.result2 Sample.world1
                (Sample_range_ok _) (Sample_range_rev_ok _)).
  vm_compute in H. discriminate H.
Qed.

(** C4, amended. Two runs on the same result and repository name write
    the same lines, each a function of its entry and of the name, and
    the same empty line after them; only the order of the lines follows
    the order of the range. With at most one entry the texts are equal
    byte for byte. *)
Theorem C4_report_lines_up_to_order (env env' : Env) (fd repos old : string)
    (result : gmap string Time) (w : World) :
  range_ok env → range_ok env' →
  files w !! fd = Some old →
  (String.length (lines_text repos (range_result env (map_to_list result))) + 1 <= free w)%nat →
  (String.length (lines_text repos (range_result env' (map_to_list result))) + 1 <= free w)%nat →
  (∃ entries entries' sep,
      entries ≡ₚ entries'
      ∧ files (snd (writeReport env fd repos result w)) !! fd
        = Some (old +:+ lines_text repos entries +:+ sep)
      ∧ files (snd (writeReport env' fd repos result w)) !! fd
        = Some (old +:+ lines_text repos entries' +:+ sep))
  ∧ ((size result <= 1)%nat →
     files (snd (writeReport env fd repos result w)) !! fd
     = files (snd (writeReport env' fd repos result w)) !! fd).
Proof.
  intros Hok Hok' Hfd Hroom Hroom'.
  destruct (decide (result = ∅)) as [-> | Hne].
  - rewrite !writeReport_empty by assumption. simpl. split; [|reflexivity].
    exists [], [], EmptyString. simpl. rewrite !app_empty_r. auto.
  - destruct (writeReport_nonempty env fd repos old result w Hne Hfd Hroom) as [_ Hrun].
    destruct (writeReport_nonempty env' fd repos old result w Hne Hfd Hroom') as [_ Hrun'].
    destruct Hok as [Hp _]. destruct Hok' as [Hp' _].
    split.
    + exists (range_result env (map_to_list result)),
             (range_result env' (map_to_list result)), LF.
      repeat split; [|assumption..].
      rewrite Hp, Hp'. reflexivity.
    + intros Hsmall. rewrite Hrun, Hrun'. do 4 f_equal.
      assert (Hl : ∀ l l' : list (string * Time), l ≡ₚ l' → (length l' <= 1)%nat → l = l').
      { intros l l' HP Hlen. destruct l' as [|x [|y l']]; simpl in Hlen; [| |lia].
        - apply Permutation_nil_r in HP. exact HP.
        - apply Permutation_singleton_r in HP. exact HP. }
      apply Hl.
      * rewrite Hp, Hp'. reflexivity.
      * rewrite (Permutation_length (Hp' _)), length_map_to_list. exact Hsmall.
Qed.

Lemma C4_witness :
  ∃ entries entries' sep,
    entries ≡ₚ entries'
    ∧ files (snd (writeReport (Sample.env1 Sample.sound_repo) "r.txt" "repo" Sample.result2
                              Sample.world1)) !! "r.txt"
      = Some (EmptyString +:+ lines_text "repo" entries +:+ sep)
    ∧ files (snd (writeReport (Sample.env1_rev Sample.sound_repo) "r.txt" "repo" Sample.result2
                              Sample.world1)) !! "r.txt"
      = Some (EmptyString +:+ lines_text "repo" entries' +:+ sep).
Proof.
  refine (proj1 (C4_report_lines_up_to_order (Sample.env1 Sample.sound_repo)
            (Sample.env1_rev Sample.sound_repo) "r.txt" "repo" EmptyString Sample.result2
            Sample.world1 _ _ _ _ _)).
  - apply Sample_range_ok.
  - apply Sample_range_rev_ok.
  - vm_compute. reflexivity.
  - vm_compute. lia.
  - vm_compute. lia.
Defined.

(** ** The names of the repositories *)

Section RepositoryNames.

Lemma HasPrefix_byte (d c : ascii) (s : string) :
  HasPrefix (String d s) (String c EmptyString) = Ascii.eqb d c.
Proof. simpl. destruct (Ascii.eqb d c); reflexivity. Qed.



(** [Index] for a separator of one byte. *)
Lemma Index_byte_absent (c : ascii) (s : string) :
  in_cutset c s = false → Index s (String c EmptyString) = -1.
Proof.
  induction s as [|d s IH]; intros H; [reflexivity|].
  simpl in H. destruct (Ascii.eqb c d) eqn:E; [discriminate|].
  unfold Index; fold Index. rewrite HasPrefix_byte, Ascii.eqb_sym, E, (IH H).
  reflexivity.
Qed.

Lemma Index_byte_first (c : ascii) (a b : string) :
  in_cutset c a = false → Index (a +:+ String c b) (String c EmptyString) = len a.
Proof.
  induction a as [|d a IH]; intros H.
  - rewrite app_empty_l. unfold Index; fold Index.
    rewrite HasPrefix_byte, Ascii.eqb_refl. reflexivity.
  - simpl in H. destruct (Ascii.eqb c d) eqn:E; [discriminate|].
    rewrite app_cons. unfold Index; fold Index.
    rewrite HasPrefix_byte, Ascii.eqb_sym, E, (IH H).
    unfold len. simpl String.length.
    destruct (Z.of_nat (String.length a) <? 0) eqn:E'; [apply Z.ltb_lt in E'|]; lia.
Qed.

Lemma take_bytes_app (a b : string) : take_bytes (String.length a) (a +:+ b) = a.
Proof.
  induction a as [|d a IH]; [reflexivity|].
  rewrite app_cons. simpl. rewrite IH. reflexivity.
Qed.

Lemma drop_bytes_app (a b : string) : drop_bytes (String.length a) (a +:+ b) = b.
Proof. induction a as [|d a IH]; [reflexivity|]. rewrite app_cons. simpl. exact IH. Qed.

Lemma before_first_split (c : ascii) (s : string) :
  (in_cutset c s = false ∧ before_first c s = s)
  ∨ (∃ b, s = before_first c s +:+ String c b ∧ in_cutset c (before_first c s) = false).
Proof.
  induction s as [|d s IH]; [left; auto|].
  simpl. destruct (Ascii.eqb d c) eqn:E.
  - apply Ascii.eqb_eq in E as ->. right. exists s. split; reflexivity.
  - rewrite Ascii.eqb_sym, E. destruct IH as [[Hn He] | (b & Hs & Hn)].
    + left. rewrite He. auto.
    + right. exists b. rewrite app_cons, <- Hs. simpl. rewrite Ascii.eqb_sym, E. auto.
Qed.

(** [strings.Split(s, sep)[0]] for a separator of one byte is the part
    of [s] before the first separator. *)
Lemma first_Split_byte (c : ascii) (s : string) :
  first (Split s (String c EmptyString)) = before_first c s.
Proof.
  unfold Split. destruct (before_first_split c s) as [[Hn He] | (b & Hs & Hn)].
  - rewrite He. destruct (String.length s); simpl; [reflexivity|].
    rewrite (Index_byte_absent _ _ Hn). reflexivity.
  - remember (before_first c s) as h eqn:Hh. clear Hh.
    assert (Hi : Index s (String c EmptyString) = len h).
    { rewrite Hs. apply Index_byte_first, Hn. }
    destruct (String.length s) eqn:El.
    + destruct s; [|discriminate]. destruct h; discriminate.
    + simpl. rewrite Hi. unfold len.
      destruct (Z.of_nat _ <? 0) eqn:E; [apply Z.ltb_lt in E; lia|].
      simpl. unfold slice_to. rewrite Nat2Z.id. rewrite Hs. apply take_bytes_app.
Qed.

Lemma LastIndex_byte (c : ascii) (s : string) :
  (in_cutset c s = false → LastIndex s (String c EmptyString) = -1)
  ∧ (in_cutset c s = true → 0 <= LastIndex s (String c EmptyString)).
Proof.
  induction s as [|d s [IHn IHy]]; [split; [reflexivity | discriminate]|].
  unfold LastIndex; fold LastIndex. rewrite HasPrefix_byte. simpl in_cutset.
  destruct (in_cutset c s) eqn:Es.
  - specialize (IHy eq_refl). split.
    + destruct (Ascii.eqb c d); discriminate.
    + intros _. destruct (0 <=? LastIndex s (String c EmptyString)) eqn:E; [lia|].
      apply Z.leb_gt in E. lia.
  - rewrite (IHn eq_refl). simpl. rewrite (Ascii.eqb_sym d c).
    destruct (Ascii.eqb c d); split; (discriminate || reflexivity || lia).
Qed.

(** [val[strings.LastIndex(val, "/")+1:]] is the part of [val] after
    its last separator. *)
Lemma slice_after_LastIndex (c : ascii) (s : string) :
  slice_from s (LastIndex s (String c EmptyString) + 1) = after_last c s.
Proof.
  induction s as [|d s IH]; [reflexivity|].
  destruct (LastIndex_byte c s) as [Hn Hy].
  unfold LastIndex; fold LastIndex. rewrite HasPrefix_byte. simpl after_last.
  destruct (in_cutset c s) eqn:Es.
  - specialize (Hy eq_refl).
    destruct (0 <=? LastIndex s (String c EmptyString)) eqn:E; [|apply Z.leb_gt in E; lia].
    rewrite <- IH. unfold slice_from.
    replace (Z.to_nat (LastIndex s (String c EmptyString) + 1 + 1))
      with (S (Z.to_nat (LastIndex s (String c EmptyString) + 1))) by lia.
    reflexivity.
  - rewrite (Hn eq_refl). simpl. destruct (Ascii.eqb d c); reflexivity.
Qed.


(** What the loop over the clone links of one item does. *)
Lemma cloneLinks_spec (links : list Link) (repositories : gmap string string) :
  cloneLinks links repositories =
    match https_link links with
    | None => repositories
    | Some link =>
        let head := first (Split (Sprintf_v link) " ") in
        let val := slice_from head (Index head ":" + 1) in
        <[name_of_url val := val]> repositories
    end.
Proof.
  induction links as [|link links IH]; [reflexivity|].
  cbn [cloneLinks https_link]. destruct (Contains (Sprintf_v link) "https"); [|exact IH].
  unfold name_of_url. rewrite slice_after_LastIndex, first_Split_byte. reflexivity.
Qed.

End RepositoryNames.



(** ** The checkpoint: loading *)

Section Load.

Lemma Stat_world (name : string) (w : World) : snd (Stat name w) = w.
Proof.
  unfold Stat. repeat case_decide; try reflexivity. destruct (files w !! name); reflexivity.
Qed.


Lemma readCheckTime_absent (env : Env) (filename : string) (w : World) :
  files w !! filename = None → filename ∉ dirs w → filename ∉ denied w →
  readCheckTime env filename w = (Ok (AddDate (Now env) 0 (-6) 0), w).
Proof.
  intros Hf Hd Hx. unfold readCheckTime, Stat.
  rewrite !decide_False by assumption. rewrite Hf. reflexivity.
Qed.

Lemma readCheckTime_present (env : Env) (filename b : string) (w : World) :
  files w !! filename = Some b → filename ∉ dirs w → filename ∉ denied w →
  readCheckTime env filename w = (Parse DateFormat (TrimRight b LF), w).
Proof.
  intros Hf Hd Hx. unfold readCheckTime, Stat.
  rewrite !decide_False by assumption. rewrite Hf.
  unfold bind, ReadFile. rewrite !decide_False by assumption. rewrite Hf. reflexivity.
Qed.

Lemma prepareDir_files (dir : string) (w : World) :
  files (snd (prepareDir dir w)) = files w
  ∧ denied (snd (prepareDir dir w)) = denied w
  ∧ cleanPaths (snd (prepareDir dir w)) = cleanPaths w
  ∧ (dirs (snd (prepareDir dir w)) = dirs w
     ∨ dirs (snd (prepareDir dir w)) = {[dir]} ∪ dirs w).
Proof.
  unfold prepareDir. pose proof (Stat_world dir w) as Hs.
  destruct (Stat dir w) as [[u|err] w1]; simpl in Hs; subst w1; [simpl; auto|].
  destruct (IsNotExist err); [|simpl; auto].
  unfold Mkdir. repeat case_decide; simpl; auto.
  destruct (files w !! dir); simpl; auto.
Qed.

End Load.

(** C6. Loading the checkpoint: without a check file the result is the
    time six months before now, and no error; with a check file whose
    contents, less the line feeds at the end, do not parse in the layout
    the result is the error of the parse; and [main] then panics, with
    the check file as it was. *)
Theorem C6_load_default_or_error (env : Env) (w : World) :
  checkFileName ∉ dirs w → checkFileName ∉ denied w →
  (files w !! checkFileName = None →
   readCheckTime env checkFileName w = (Ok (AddDate (Now env) 0 (-6) 0), w))
  ∧ (∀ b e, files w !! checkFileName = Some b →
            Parse DateFormat (TrimRight b LF) = Err e →
            readCheckTime env checkFileName w = (Err e, w)
            ∧ (∃ e', fst (main env w) = Err e')
            ∧ files (snd (main env w)) !! checkFileName = Some b).
Proof.
  intros Hd Hx. split.
  - intros Hf. apply readCheckTime_absent; assumption.
  - intros b e Hf Hp.
    assert (Hr : ∀ w', files w' = files w → denied w' = denied w →
                       checkFileName ∉ dirs w' →
                       readCheckTime env checkFileName w' = (Err e, w')).
    { intros w' Hfs Hdn Hdr. rewrite (readCheckTime_present env _ b), Hp;
        [reflexivity | rewrite Hfs; exact Hf | exact Hdr | rewrite Hdn; exact Hx]. }
    split; [apply Hr; auto|].
    unfold main, bind.
    destruct (prepareDir_files resultDir w) as (Hfs & Hdn & _ & Hdr).
    destruct (prepareDir resultDir w) as [[u|e1] w1]; simpl in *.
    + rewrite (Hr w1 Hfs Hdn).
      * simpl. rewrite Hfs. split; [eauto | exact Hf].
      * destruct Hdr as [-> | ->]; [exact Hd|].
        intros [H | H]%elem_of_union; [|contradiction].
        apply elem_of_singleton in H. discriminate H.
    + rewrite Hfs. split; [eauto | exact Hf].
Qed.

Lemma C6_witness :
  readCheckTime (Sample.env1 Sample.sound_repo) checkFileName Sample.world_first
    = (Ok (mkTime 1777647850 0 28800), Sample.world_first)
  ∧ (∃ e', fst (main (Sample.env1 Sample.sound_repo) Sample.world_corrupt) = Err e').
Proof.
  assert (Hd : ∀ w, dirs w = ∅ → checkFileName ∉ dirs w) by (intros w ->; set_solver).
  assert (Hx : ∀ w, denied w = ∅ → checkFileName ∉ denied w) by (intros w ->; set_solver).
  split.
  - apply (proj1 (C6_load_default_or_error (Sample.env1 Sample.sound_repo) Sample.world_first
                    (Hd Sample.world_first eq_refl) (Hx Sample.world_first eq_refl))).
    vm_compute. reflexivity.
  - refine (proj1 (proj2 (proj2 (C6_load_default_or_error (Sample.env1 Sample.sound_repo)
                    Sample.world_corrupt (Hd Sample.world_corrupt eq_refl)
                    (Hx Sample.world_corrupt eq_refl))
                    "yesterday" errBad _ _))); vm_compute; reflexivity.
Defined.

(** ** The checkpoint: when it is written *)

Section Advance.

Lemma same_but_refl (fd : string) (w : World) : same_but fd w w.
Proof. unfold same_but. auto. Qed.

Lemma same_but_trans (fd : string) (w1 w2 w3 : World) :
  same_but fd w1 w2 → same_but fd w2 w3 → same_but fd w1 w3.
Proof.
  intros (Hf & Hs & Hd & Hx & Hc) (Hf' & Hs' & Hd' & Hx' & Hc').
  unfold same_but. repeat split; try congruence; auto.
  intros k Hk. rewrite Hf', Hf by assumption. reflexivity.
Qed.

Lemma WriteString_same_but (fd s : string) (w : World) :
  same_but fd w (snd (WriteString fd s w)).
Proof.
  unfold WriteString. destruct (files w !! fd) as [old|] eqn:Hfd; [|apply same_but_refl].
  destruct (_ <? _)%nat; simpl; unfold same_but; simpl;
    (repeat split; auto; [intros k Hk; by rewrite lookup_insert_ne | rewrite lookup_insert_eq; eauto]).
Qed.

Lemma writeLines_same_but (fd repos : string) (entries : list (string * Time)) (w : World) :
  same_but fd w (snd (writeLines fd repos entries w)).
Proof.
  revert w. induction entries as [|[key val] entries IH]; intros w; simpl.
  - apply same_but_refl.
  - unfold bind. pose proof (WriteString_same_but fd (reportLine key repos val) w) as H1.
    destruct (WriteString fd (reportLine key repos val) w) as [[n|e] w1]; simpl in *.
    + eapply same_but_trans; [exact H1 | apply IH].
    + exact H1.
Qed.

Lemma writeReport_same_but (env : Env) (fd repos : string) (result : gmap string Time)
    (w : World) :
  same_but fd w (snd (writeReport env fd repos result w)).
Proof.
  unfold writeReport, bind.
  pose proof (writeLines_same_but fd repos (range_result env (map_to_list result)) w) as H1.
  destruct (writeLines fd repos _ w) as [[u|e] w1]; simpl in *; [|exact H1].
  destruct (0 <? Z.of_nat (size result)); [|exact H1].
  unfold ignore_err. simpl. eapply same_but_trans; [exact H1 | apply WriteString_same_but].
Qed.

















End Advance.



(** ** Parsing: what a chunk leaves, and text after the input *)

Section ParseFacts.

Lemma take_bytes_app_le (n : nat) (v e : string) :
  (n <= String.length v)%nat → take_bytes n (v +:+ e) = take_bytes n v.
Proof.
  revert v. induction n as [|n IH]; intros v H; [reflexivity|].
  destruct v as [|c v]; simpl in H; [lia|].
  rewrite app_cons. simpl. rewrite IH by lia. reflexivity.
Qed.

Lemma drop_bytes_app_le (n : nat) (v e : string) :
  (n <= String.length v)%nat → drop_bytes n (v +:+ e) = drop_bytes n v +:+ e.
Proof.
  revert v. induction n as [|n IH]; intros v H; [reflexivity|].
  destruct v as [|c v]; simpl in H; [lia|].
  rewrite app_cons. simpl. apply IH. lia.
Qed.

Lemma drop_bytes_length (n : nat) (v : string) :
  String.length (drop_bytes n v) = (String.length v - n)%nat.
Proof.
  revert v. induction n as [|n IH]; intros v; simpl; [lia|].
  destruct v as [|c v]; simpl; [reflexivity | apply IH].
Qed.

Lemma len_app (v e : string) : len (v +:+ e) = len v + len e.
Proof. unfold len. rewrite app_length'. lia. Qed.

Lemma len_nonneg (v : string) : 0 <= len v.
Proof. unfold len. lia. Qed.

Lemma length_zero (v : string) : String.length v = O → v = EmptyString.
Proof. destruct v; [reflexivity | discriminate]. Qed.

(** *** getnum *)

Lemma getnum_shorter (v v' : string) (fixed : bool) (x : Z) :
  getnum v fixed = Some (x, v') → (String.length v' < String.length v)%nat.
Proof.
  unfold getnum, isDigit, digit_at, byte_at, slice_from.
  destruct v as [|a [|b v2]]; simpl.
  - discriminate.
  - destruct (is_digit a); simpl; [|discriminate].
    destruct fixed; [discriminate|]. intros [= _ <-]. simpl. lia.
  - destruct (is_digit a); simpl; [|discriminate].
    destruct (is_digit b); simpl.
    + intros [= _ <-]. lia.
    + destruct fixed; [discriminate|]. intros [= _ <-]. simpl. lia.
Qed.

Lemma getnum_app (v v' e : string) (fixed : bool) (x : Z) :
  getnum v fixed = Some (x, v') → v' ≠ EmptyString →
  getnum (v +:+ e) fixed = Some (x, v' +:+ e).
Proof.
  unfold getnum, isDigit, digit_at, byte_at, slice_from.
  destruct v as [|a [|b v2]]; simpl.
  - discriminate.
  - destruct (is_digit a); simpl; [|discriminate].
    destruct fixed; [discriminate|]. intros [= _ <-] H. contradiction.
  - rewrite !app_cons. simpl. destruct (is_digit a); simpl; [|discriminate].
    destruct (is_digit b); simpl.
    + intros [= <- <-] _. reflexivity.
    + destruct fixed; [discriminate|]. intros [= <- <-] _. reflexivity.
Qed.

(** *** lookup *)

Lemma lookup_from_cons3 (name : string) (tab : list string) (i : Z) (val : string) :
  String.length name = 3%nat →
  lookup_from i (name :: tab) val =
    if (3 <=? len val) && match_ (take_bytes 3 val) name
    then Some (i, drop_bytes 3 val)
    else lookup_from (i + 1) tab val.
Proof.
  intros Hn. cbn [lookup_from]. unfold slice_to, slice_from, len at 1 3 4. rewrite Hn.
  reflexivity.
Qed.

Lemma lookup_from_app (tab : list string) (i : Z) (v e : string) :
  Forall (fun name => String.length name = 3%nat) tab →
  (3 <= String.length v)%nat →
  lookup_from i tab (v +:+ e) =
    match lookup_from i tab v with
    | Some (j, v') => Some (j, v' +:+ e)
    | None => None
    end.
Proof.
  intros Htab Hv. revert i. induction Htab as [|name tab Hn _ IH]; intros i; [reflexivity|].
  rewrite !lookup_from_cons3 by exact Hn.
  rewrite take_bytes_app_le, drop_bytes_app_le by exact Hv.
  replace (3 <=? len (v +:+ e)) with true
    by (symmetry; apply Z.leb_le; rewrite len_app; pose proof (len_nonneg e); unfold len; lia).
  replace (3 <=? len v) with true by (symmetry; apply Z.leb_le; unfold len; lia).
  cbn [andb]. destruct (match_ _ name); [reflexivity | apply IH].
Qed.

Lemma lookup_from_shorter (tab : list string) (i j : Z) (v v' : string) :
  Forall (fun name => String.length name = 3%nat) tab →
  lookup_from i tab v = Some (j, v') →
  (3 <= String.length v)%nat ∧ String.length v' = (String.length v - 3)%nat.
Proof.
  intros Htab. revert i. induction Htab as [|name tab Hn _ IH]; intros i; [discriminate|].
  rewrite lookup_from_cons3 by exact Hn.
  destruct (3 <=? len v) eqn:E; cbn [andb]; [|apply IH].
  destruct (match_ _ name); [|apply IH].
  intros H. assert (Hv' : v' = drop_bytes 3 v) by congruence.
  apply Z.leb_le in E. unfold len in E. rewrite Hv', drop_bytes_length. lia.
Qed.

Lemma shortDayNames_3 : Forall (fun name => String.length name = 3%nat) shortDayNames.
Proof. repeat constructor. Qed.

Lemma shortMonthNames_3 : Forall (fun name => String.length name = 3%nat) shortMonthNames.
Proof. repeat constructor. Qed.

(** *** skip *)

Lemma cutspace_shorter (v : string) : (String.length (cutspace v) <= String.length v)%nat.
Proof.
  induction v as [|c v IH]; [reflexivity|].
  simpl. destruct (Ascii.ascii_dec c " ") as [-> | Hne].
  - simpl. lia.
  - replace (match c with " "%char => cutspace v | _ => String c v end) with (String c v);
      [simpl; lia|].
    destruct c as [[] [] [] [] [] [] [] []]; try reflexivity. contradiction.
Qed.

Lemma cutspace_cons (c : ascii) (v : string) :
  cutspace (String c v) = if Ascii.eqb c " " then cutspace v else String c v.
Proof. destruct c as [[] [] [] [] [] [] [] []]; reflexivity. Qed.

Lemma cutspace_app (v e : string) :
  cutspace v ≠ EmptyString → cutspace (v +:+ e) = cutspace v +:+ e.
Proof.
  induction v as [|c v IH]; intros H; [contradiction|].
  rewrite app_cons, !cutspace_cons in *. destruct (Ascii.eqb c " "); [apply IH, H | reflexivity].
Qed.

Lemma skip_from_shorter (fuel : nat) (v p v' : string) :
  skip_from fuel v p = Some v' → (String.length v' <= String.length v)%nat.
Proof.
  revert v p. induction fuel as [|fuel IH]; intros v p; simpl; [intros [= <-]; lia|].
  destruct p as [|c p]; [intros [= <-]; lia|].
  destruct (Ascii.eqb c " ").
  - destruct v as [|a v].
    + intros H. apply IH in H. exact H.
    + destruct (Ascii.eqb a " "); [|discriminate].
      intros H. apply IH in H. pose proof (cutspace_shorter (String a v)). lia.
  - destruct v as [|a v]; [discriminate|].
    destruct (Ascii.eqb a c); [|discriminate].
    intros H. apply IH in H. simpl. lia.
Qed.

Lemma skip_from_app (fuel : nat) (v p v' e : string) :
  skip_from fuel v p = Some v' → v' ≠ EmptyString →
  skip_from fuel (v +:+ e) p = Some (v' +:+ e).
Proof.
  revert v p. induction fuel as [|fuel IH]; intros v p; simpl;
    [intros [= <-] _; reflexivity|].
  destruct p as [|c p]; [intros [= <-] _; reflexivity|].
  destruct (Ascii.eqb c " ").
  - destruct v as [|a v].
    + intros H Hne. apply skip_from_shorter in H. simpl in H.
      exfalso. apply Hne, length_zero. lia.
    + rewrite app_cons. destruct (Ascii.eqb a " "); [|discriminate].
      intros H Hne. rewrite <- app_cons. rewrite cutspace_app.
      * apply IH; assumption.
      * intros Hc. rewrite Hc in H. apply skip_from_shorter in H. simpl in H.
        apply Hne, length_zero. lia.
  - destruct v as [|a v]; [discriminate|]. rewrite app_cons.
    destruct (Ascii.eqb a c); [|discriminate]. apply IH.
Qed.

End ParseFacts.

Section ChunkFacts.

Lemma digits_end_bounds (v : string) (n : nat) :
  (n <= digits_end v n <= n + String.length v)%nat.
Proof.
  revert n. induction v as [|c v IH]; intros n; simpl; [lia|].
  destruct (is_digit c); [|lia]. specialize (IH (S n)). lia.
Qed.

Lemma digits_end_app (v e : string) (n : nat) :
  (digits_end v n < n + String.length v)%nat → digits_end (v +:+ e) n = digits_end v n.
Proof.
  revert n. induction v as [|c v IH]; intros n; [simpl; lia|].
  rewrite app_cons. cbn [digits_end String.length]. destruct (is_digit c); [|reflexivity].
  intros H. apply IH. lia.
Qed.

Lemma fraction_shorter (f f' : fields) (v v' : string) :
  fraction f v = Ok (f', v') → (String.length v' <= String.length v)%nat.
Proof.
  unfold fraction. destruct v as [|c0 v1]; [intros [= _ <-]; lia|].
  destruct (_ && _ && _).
  - cbv zeta. destruct (parseNanoseconds _ _); [|discriminate].
    intros [= _ <-]. rewrite drop_bytes_length. lia.
  - intros [= _ <-]. lia.
Qed.

Lemma fraction_app (f f' : fields) (v v' e : string) :
  fraction f v = Ok (f', v') → (2 <= String.length v')%nat →
  fraction f (v +:+ e) = Ok (f', v' +:+ e).
Proof.
  intros H Hlen. pose proof (fraction_shorter _ _ _ _ H) as Hsh.
  destruct v as [|c0 [|c1 v2]]; simpl in Hsh; [lia | lia |].
  revert H. rewrite !app_cons. unfold fraction.
  assert (Hc : ∀ x : string, (2 <=? len (String c0 (String c1 x))) = true).
  { intros x. apply Z.leb_le. unfold len. simpl String.length. lia. }
  rewrite !Hc. unfold isDigit, byte_at. cbn [String.get Nat.eqb Nat.pred].
  destruct (true && commaOrPeriod c0 && is_digit c1) eqn:Econd; cbv zeta.
  - cbn [drop_bytes].
    destruct (parseNanoseconds (String c0 (String c1 v2)) (digits_end v2 2)) as [ns|] eqn:En;
      [|discriminate].
    intros H. assert (Hv' : v' = drop_bytes (digits_end v2 2) (String c0 (String c1 v2)))
      by congruence.
    assert (Hf' : f' = set_nsec f ns) by congruence.
    rewrite Hv', drop_bytes_length in Hlen. simpl String.length in Hlen.
    pose proof (digits_end_bounds v2 2) as Hb.
    rewrite digits_end_app by lia.
    rewrite <- !app_cons, drop_bytes_app_le by (simpl String.length; lia).
    assert (Hn : parseNanoseconds (String c0 (String c1 v2) +:+ e) (digits_end v2 2) = Some ns).
    { revert En. unfold parseNanoseconds.
      rewrite take_bytes_app_le by (simpl String.length; lia). rewrite app_cons. auto. }
    rewrite Hn, Hv', Hf'. reflexivity.
  - intros H. assert (Hv' : v' = String c0 (String c1 v2)) by congruence.
    assert (Hf' : f' = f) by congruence. rewrite Hv', Hf'. reflexivity.
Qed.

Lemma parse_chunk_shorter (c : chunk) (f f' : fields) (v v' : string) :
  parse_chunk c f v = Ok (f', v') → (String.length v' <= String.length v)%nat.
Proof.
  destruct c; cbn [parse_chunk].
  - unfold skip. destruct (skip_from _ v text) eqn:E; [|discriminate].
    intros H. assert (s = v') by congruence. subst s. eapply skip_from_shorter, E.
  - unfold lookup. destruct (lookup_from 0 shortDayNames v) as [[j r]|] eqn:E; [|discriminate].
    intros H. assert (r = v') by congruence. subst r.
    destruct (lookup_from_shorter _ _ _ _ _ shortDayNames_3 E). lia.
  - unfold lookup. destruct (lookup_from 0 shortMonthNames v) as [[j r]|] eqn:E; [|discriminate].
    intros H. assert (r = v') by congruence. subst r.
    destruct (lookup_from_shorter _ _ _ _ _ shortMonthNames_3 E). lia.
  - destruct (getnum v true) as [[x r]|] eqn:E; [|discriminate].
    destruct (_ || _); [discriminate|]. intros H. assert (r = v') by congruence. subst r.
    apply getnum_shorter in E. lia.
  - destruct (getnum v true) as [[x r]|] eqn:E; [|discriminate].
    intros H. assert (r = v') by congruence. subst r. apply getnum_shorter in E. lia.
  - destruct (getnum v false) as [[x r]|] eqn:E; [|discriminate].
    destruct (_ || _); [discriminate|]. intros H. assert (r = v') by congruence. subst r.
    apply getnum_shorter in E. lia.
  - destruct (getnum v true) as [[x r]|] eqn:E; [|discriminate].
    destruct (_ || _); [discriminate|]. intros H. assert (r = v') by congruence. subst r.
    apply getnum_shorter in E. lia.
  - destruct (getnum v true) as [[x r]|] eqn:E; [|discriminate].
    destruct (_ || _); [discriminate|]. intros H. apply fraction_shorter in H.
    apply getnum_shorter in E. lia.
  - destruct (_ || _); [discriminate|]. destruct (atoi _); [|discriminate].
    intros H. assert (Hv' : v' = slice_from v 4) by congruence.
    rewrite Hv'. unfold slice_from. rewrite drop_bytes_length. lia.
  - destruct (len v <? 5); [discriminate|].
    destruct (getnum (slice_to (slice_from v 1) 2) true) as [[hr ?]|]; [|discriminate].
    destruct (getnum (slice_to (slice_from v 3) 2) true) as [[mm ?]|]; [|discriminate].
    destruct (getnum "00" true) as [[ss ?]|]; [|discriminate].
    destruct (24 <? hr); [discriminate|]. destruct (60 <? mm); [discriminate|].
    destruct (60 <? ss); [discriminate|].
    assert (Hd : (String.length (slice_from v 5) <= String.length v)%nat)
      by (unfold slice_from; rewrite drop_bytes_length; lia).
    destruct (String.eqb _ "+").
    + intros H. assert (Hv' : v' = slice_from v 5) by congruence. rewrite Hv'. exact Hd.
    + destruct (String.eqb _ "-"); [|discriminate].
      intros H. assert (Hv' : v' = slice_from v 5) by congruence. rewrite Hv'. exact Hd.
Qed.

End ChunkFacts.

Section TextAfter.

Lemma isDigit_app (v e : string) (i : nat) :
  (i < String.length v)%nat → isDigit (v +:+ e) i = isDigit v i.
Proof.
  unfold isDigit, byte_at. revert i. induction v as [|c v IH]; intros i H; simpl in H; [lia|].
  rewrite app_cons. destruct i; [reflexivity|]. simpl. apply IH. lia.
Qed.

(** The zone is read from five bytes, whatever follows. *)
Lemma parse_zone_app (f f' : fields) (v v' e : string) :
  parse_chunk stdNumTZ f v = Ok (f', v') →
  parse_chunk stdNumTZ f (v +:+ e) = Ok (f', v' +:+ e).
Proof.
  cbn [parse_chunk]. destruct (len v <? 5) eqn:El; [discriminate|].
  apply Z.ltb_ge in El. unfold len in El.
  replace (len (v +:+ e) <? 5) with false
    by (symmetry; apply Z.ltb_ge; rewrite len_app; pose proof (len_nonneg e); unfold len; lia).
  unfold slice_to, slice_from.
    change (Z.to_nat 1) with 1%nat; change (Z.to_nat 2) with 2%nat;
    change (Z.to_nat 3) with 3%nat; change (Z.to_nat 4) with 4%nat;
    change (Z.to_nat 5) with 5%nat.
  rewrite !drop_bytes_app_le by lia.
  rewrite !take_bytes_app_le by (rewrite ?drop_bytes_length; lia).
  destruct (getnum (take_bytes 2 (drop_bytes 1 v)) true) as [[hr ?]|]; [|discriminate].
  destruct (getnum (take_bytes 2 (drop_bytes 3 v)) true) as [[mm ?]|]; [|discriminate].
  destruct (getnum "00" true) as [[ss ?]|]; [|discriminate].
  destruct (24 <? hr); [discriminate|]. destruct (60 <? mm); [discriminate|].
  destruct (60 <? ss); [discriminate|].
  destruct (String.eqb _ "+").
  - intros H. assert (Hv' : v' = drop_bytes 5 v) by congruence.
    assert (Hf' : f' = set_zoneOffset f ((hr * 60 + mm) * 60 + ss)) by congruence.
    rewrite Hv', Hf'. reflexivity.
  - destruct (String.eqb _ "-"); [|discriminate].
    intros H. assert (Hv' : v' = drop_bytes 5 v) by congruence.
    assert (Hf' : f' = set_zoneOffset f (- ((hr * 60 + mm) * 60 + ss))) by congruence.
    rewrite Hv', Hf'. reflexivity.
Qed.

(** A chunk reads the same from [v] and from [v] with more text after
    it, when it leaves two bytes or more of [v]. *)
Lemma parse_chunk_app (c : chunk) (f f' : fields) (v v' e : string) :
  parse_chunk c f v = Ok (f', v') → (2 <= String.length v')%nat →
  parse_chunk c f (v +:+ e) = Ok (f', v' +:+ e).
Proof.
  assert (Hne : ∀ r : string, (2 <= String.length r)%nat → r ≠ EmptyString)
    by (intros r Hr ->; simpl in Hr; lia).
  destruct c; cbn [parse_chunk]; intros H Hlen.
  - revert H. unfold skip. destruct (skip_from _ v text) eqn:E; [|discriminate].
    intros H. assert (s = v') by congruence. subst s.
    rewrite (skip_from_app _ _ _ _ e E (Hne _ Hlen)). congruence.
  - revert H. unfold lookup.
    destruct (lookup_from 0 shortDayNames v) as [[j r]|] eqn:E; [|discriminate].
    destruct (lookup_from_shorter _ _ _ _ _ shortDayNames_3 E) as [H3 _].
    rewrite (lookup_from_app _ _ _ e shortDayNames_3 H3), E. congruence.
  - revert H. unfold lookup.
    destruct (lookup_from 0 shortMonthNames v) as [[j r]|] eqn:E; [|discriminate].
    destruct (lookup_from_shorter _ _ _ _ _ shortMonthNames_3 E) as [H3 _].
    rewrite (lookup_from_app _ _ _ e shortMonthNames_3 H3), E. congruence.
  - revert H. destruct (getnum v true) as [[x r]|] eqn:E; [|discriminate].
    destruct (_ || _) eqn:Er; [discriminate|]. intros H. assert (r = v') by congruence. subst r.
    rewrite (getnum_app _ _ e _ _ E (Hne _ Hlen)), Er. congruence.
  - revert H. destruct (getnum v true) as [[x r]|] eqn:E; [|discriminate].
    intros H. assert (r = v') by congruence. subst r.
    rewrite (getnum_app _ _ e _ _ E (Hne _ Hlen)). congruence.
  - revert H. destruct (getnum v false) as [[x r]|] eqn:E; [|discriminate].
    destruct (_ || _) eqn:Er; [discriminate|]. intros H. assert (r = v') by congruence. subst r.
    rewrite (getnum_app _ _ e _ _ E (Hne _ Hlen)), Er. congruence.
  - revert H. destruct (getnum v true) as [[x r]|] eqn:E; [|discriminate].
    destruct (_ || _) eqn:Er; [discriminate|]. intros H. assert (r = v') by congruence. subst r.
    rewrite (getnum_app _ _ e _ _ E (Hne _ Hlen)), Er. congruence.
  - revert H. destruct (getnum v true) as [[x r]|] eqn:E; [|discriminate].
    destruct (_ || _) eqn:Er; [discriminate|]. intros H.
    pose proof (fraction_shorter _ _ _ _ H) as Hr.
    rewrite (getnum_app _ _ e _ _ E) by (apply Hne; lia). rewrite Er.
    apply fraction_app; assumption.
  - revert H. destruct (_ || _) eqn:Ec; [discriminate|].
    apply orb_false_elim in Ec as [El Ed]. apply Z.ltb_ge in El. unfold len in El.
    replace ((len (v +:+ e) <? 4) || negb (isDigit (v +:+ e) 0)) with false.
    2:{ symmetry. apply orb_false_intro.
        - apply Z.ltb_ge. rewrite len_app. pose proof (len_nonneg e). unfold len. lia.
        - rewrite isDigit_app by lia. exact Ed. }
    unfold slice_to, slice_from.
    change (Z.to_nat 1) with 1%nat; change (Z.to_nat 2) with 2%nat;
    change (Z.to_nat 3) with 3%nat; change (Z.to_nat 4) with 4%nat;
    change (Z.to_nat 5) with 5%nat.
    rewrite take_bytes_app_le, drop_bytes_app_le by lia.
    destruct (atoi _); [|discriminate]. intros H.
    assert (Hv' : v' = drop_bytes 4 v) by congruence.
    assert (Hf' : f' = set_year f z) by congruence. rewrite Hv', Hf'. reflexivity.
  - apply parse_zone_app. exact H.
Qed.

Lemma parse_loop_zone_length (pre : list chunk) (f f' : fields) (v : string) :
  parse_loop (pre ++ [stdNumTZ]) f v = Ok f' → (5 <= String.length v)%nat.
Proof.
  revert f v. induction pre as [|c pre IH]; intros f v; cbn [app parse_loop].
  - destruct (parse_chunk stdNumTZ f v) as [[f1 v1]|] eqn:E; [|discriminate]. intros _.
    revert E. cbn [parse_chunk]. destruct (len v <? 5) eqn:El; [discriminate|].
    intros _. apply Z.ltb_ge in El. unfold len in El. lia.
  - destruct (parse_chunk c f v) as [[f1 v1]|] eqn:E; [|discriminate].
    intros H. apply IH in H. apply parse_chunk_shorter in E. lia.
Qed.

(** Text after an input that parses is an error. *)
Lemma parse_loop_extra_text (pre : list chunk) (f f' : fields) (v e : string) :
  parse_loop (pre ++ [stdNumTZ]) f v = Ok f' → e ≠ EmptyString →
  ∃ err, parse_loop (pre ++ [stdNumTZ]) f (v +:+ e) = Err err.
Proof.
  revert f v. induction pre as [|c pre IH]; intros f v; cbn [app parse_loop].
  - destruct (parse_chunk stdNumTZ f v) as [[f1 v1]|] eqn:E; [|discriminate].
    destruct v1; [|discriminate]. intros _ He.
    rewrite (parse_zone_app _ _ _ _ e E). rewrite app_empty_l.
    destruct e; [contradiction | eauto].
  - destruct (parse_chunk c f v) as [[f1 v1]|] eqn:E; [|discriminate].
    intros H He. pose proof (parse_loop_zone_length _ _ _ _ H) as Hl.
    rewrite (parse_chunk_app _ _ _ _ _ e E) by lia. apply IH; assumption.
Qed.

Lemma Parse_extra_text (v e : string) (t : Time) :
  Parse DateFormat v = Ok t → e ≠ EmptyString → ∃ err, Parse DateFormat (v +:+ e) = Err err.
Proof.
  unfold Parse. change DateFormat with (before_zone ++ [stdNumTZ]).
  destruct (parse_loop _ fields0 v) as [f|] eqn:E; [|discriminate]. intros _ He.
  destruct (parse_loop_extra_text _ _ _ _ e E He) as [err ->]. eauto.
Qed.

End TextAfter.

Section Suffix.

Lemma take_drop_bytes (n : nat) (v : string) : take_bytes n v +:+ drop_bytes n v = v.
Proof.
  revert v. induction n as [|n IH]; intros v; [reflexivity|].
  destruct v as [|c v]; [reflexivity|]. cbn [take_bytes drop_bytes]. rewrite app_cons, IH.
  reflexivity.
Qed.

Lemma cutspace_suffix (v : string) : ∃ x, v = x +:+ cutspace v.
Proof.
  induction v as [|c v [x IH]]; [exists EmptyString; reflexivity|].
  rewrite cutspace_cons. destruct (Ascii.eqb c " ").
  - exists (String c x). rewrite app_cons, <- IH. reflexivity.
  - exists EmptyString. reflexivity.
Qed.

Lemma skip_from_suffix (fuel : nat) (v p v' : string) :
  skip_from fuel v p = Some v' → ∃ x, v = x +:+ v'.
Proof.
  revert v p. induction fuel as [|fuel IH]; intros v p; cbn [skip_from];
    [intros [= <-]; exists EmptyString; reflexivity|].
  destruct p as [|c p]; [intros [= <-]; exists EmptyString; reflexivity|].
  destruct (Ascii.eqb c " ").
  - assert (Hcut : skip_from fuel (cutspace v) (cutspace (String c p)) = Some v' →
                   ∃ x, v = x +:+ v').
    { intros H. apply IH in H as [x Hx]. destruct (cutspace_suffix v) as [y Hy].
      exists (y +:+ x). rewrite app_assoc', <- Hx. exact Hy. }
    destruct v as [|a v]; [exact Hcut|].
    destruct (Ascii.eqb a " "); [exact Hcut | discriminate].
  - destruct v as [|a v]; [discriminate|].
    destruct (Ascii.eqb a c); [|discriminate].
    intros H. apply IH in H as [x Hx]. exists (String a x). rewrite app_cons, <- Hx. reflexivity.
Qed.

Lemma getnum_suffix (v v' : string) (fixed : bool) (x : Z) :
  getnum v fixed = Some (x, v') → ∃ y, v = y +:+ v'.
Proof.
  unfold getnum, slice_from.
  destruct (negb (isDigit v 0)); [discriminate|].
  destruct (negb (isDigit v 1)).
  - destruct fixed; [discriminate|]. intros H.
    assert (Hv' : v' = drop_bytes (Z.to_nat 1) v) by congruence.
    exists (take_bytes (Z.to_nat 1) v). rewrite Hv'. symmetry. apply take_drop_bytes.
  - intros H. assert (Hv' : v' = drop_bytes (Z.to_nat 2) v) by congruence.
    exists (take_bytes (Z.to_nat 2) v). rewrite Hv'. symmetry. apply take_drop_bytes.
Qed.

Lemma lookup_from_suffix (tab : list string) (i j : Z) (v v' : string) :
  lookup_from i tab v = Some (j, v') → ∃ y, v = y +:+ v'.
Proof.
  revert i. induction tab as [|name tab IH]; intros i; cbn [lookup_from]; [discriminate|].
  destruct (_ && _); [|apply IH].
  intros H. assert (Hv' : v' = slice_from v (len name)) by congruence.
  exists (slice_to v (len name)). rewrite Hv'. symmetry. apply take_drop_bytes.
Qed.

Lemma fraction_suffix (f f' : fields) (v v' : string) :
  fraction f v = Ok (f', v') → ∃ y, v = y +:+ v'.
Proof.
  unfold fraction. destruct v as [|c0 v1]; [intros [= _ <-]; exists EmptyString; reflexivity|].
  destruct (_ && _ && _).
  - cbv zeta. destruct (parseNanoseconds _ _); [|discriminate].
    intros H. eexists. symmetry.
    assert (Hv' : v' = drop_bytes (digits_end (drop_bytes 2 (String c0 v1)) 2) (String c0 v1))
      by congruence.
    rewrite Hv'. apply take_drop_bytes.
  - intros H. exists EmptyString. rewrite app_empty_l. congruence.
Qed.

(** What a chunk leaves is the end of what it was given. *)
Lemma parse_chunk_suffix (c : chunk) (f f' : fields) (v v' : string) :
  parse_chunk c f v = Ok (f', v') → ∃ y, v = y +:+ v'.
Proof.
  destruct c; cbn [parse_chunk].
  - unfold skip. destruct (skip_from _ v text) eqn:E; [|discriminate].
    intros H. assert (s = v') by congruence. subst s. eapply skip_from_suffix, E.
  - unfold lookup. destruct (lookup_from 0 shortDayNames v) as [[j r]|] eqn:E; [|discriminate].
    intros H. assert (r = v') by congruence. subst r. eapply lookup_from_suffix, E.
  - unfold lookup. destruct (lookup_from 0 shortMonthNames v) as [[j r]|] eqn:E; [|discriminate].
    intros H. assert (r = v') by congruence. subst r. eapply lookup_from_suffix, E.
  - destruct (getnum v true) as [[x r]|] eqn:E; [|discriminate].
    destruct (_ || _); [discriminate|]. intros H. assert (r = v') by congruence. subst r.
    eapply getnum_suffix, E.
  - destruct (getnum v true) as [[x r]|] eqn:E; [|discriminate].
    intros H. assert (r = v') by congruence. subst r. eapply getnum_suffix, E.
  - destruct (getnum v false) as [[x r]|] eqn:E; [|discriminate].
    destruct (_ || _); [discriminate|]. intros H. assert (r = v') by congruence. subst r.
    eapply getnum_suffix, E.
  - destruct (getnum v true) as [[x r]|] eqn:E; [|discriminate].
    destruct (_ || _); [discriminate|]. intros H. assert (r = v') by congruence. subst r.
    eapply getnum_suffix, E.
  - destruct (getnum v true) as [[x r]|] eqn:E; [|discriminate].
    destruct (_ || _); [discriminate|]. intros H.
    apply fraction_suffix in H as [y Hy]. apply getnum_suffix in E as [z Hz].
    exists (z +:+ y). rewrite app_assoc', <- Hy. exact Hz.
  - destruct (_ || _); [discriminate|]. destruct (atoi _); [|discriminate].
    intros H. assert (Hv' : v' = slice_from v 4) by congruence.
    exists (slice_to v 4). rewrite Hv'. symmetry. apply take_drop_bytes.
  - destruct (len v <? 5); [discriminate|].
    destruct (getnum (slice_to (slice_from v 1) 2) true) as [[hr ?]|]; [|discriminate].
    destruct (getnum (slice_to (slice_from v 3) 2) true) as [[mm ?]|]; [|discriminate].
    destruct (getnum "00" true) as [[ss ?]|]; [|discriminate].
    destruct (24 <? hr); [discriminate|]. destruct (60 <? mm); [discriminate|].
    destruct (60 <? ss); [discriminate|].
    assert (Hd : ∃ y, v = y +:+ slice_from v 5)
      by (exists (slice_to v 5); symmetry; apply take_drop_bytes).
    destruct (String.eqb _ "+").
    + intros H. assert (Hv' : v' = slice_from v 5) by congruence. rewrite Hv'. exact Hd.
    + destruct (String.eqb _ "-"); [|discriminate].
      intros H. assert (Hv' : v' = slice_from v 5) by congruence. rewrite Hv'. exact Hd.
Qed.

(** An input that parses ends in the two digits of the zone's
    minutes. *)
Lemma parse_loop_ends_in_digit (pre : list chunk) (f f' : fields) (v : string) :
  parse_loop (pre ++ [stdNumTZ]) f v = Ok f' →
  ∃ y a b c d m, v = y +:+ String a (String b (String c (String d (String m EmptyString))))
                 ∧ is_digit m = true.
Proof.
  revert f v. induction pre as [|ch pre IH]; intros f v; cbn [app parse_loop].
  - destruct (parse_chunk stdNumTZ f v) as [[f1 v1]|] eqn:E; [|discriminate].
    destruct v1; [|discriminate]. intros _. revert E. cbn [parse_chunk].
    destruct (len v <? 5) eqn:El; [discriminate|]. apply Z.ltb_ge in El. unfold len in El.
    unfold slice_to, slice_from.
    change (Z.to_nat 1) with 1%nat; change (Z.to_nat 2) with 2%nat;
    change (Z.to_nat 3) with 3%nat; change (Z.to_nat 5) with 5%nat.
    destruct v as [|a [|b [|c [|d [|m v]]]]]; simpl in El; try lia.
    cbn [drop_bytes take_bytes].
    destruct (getnum (String b (String c EmptyString)) true) as [[hr ?]|]; [|discriminate].
    destruct (getnum (String d (String m EmptyString)) true) as [[mm ?]|] eqn:Em; [|discriminate].
    destruct (getnum "00" true) as [[ss ?]|]; [|discriminate].
    destruct (24 <? hr); [discriminate|]. destruct (60 <? mm); [discriminate|].
    destruct (60 <? ss); [discriminate|].
    assert (Hm : is_digit m = true).
    { revert Em. unfold getnum, isDigit, byte_at. simpl.
      destruct (is_digit d); simpl; [|discriminate]. destruct (is_digit m); [reflexivity|].
      discriminate. }
    assert (Hv : ∀ r, Ok (r, v) = Ok (f1, EmptyString) → v = EmptyString)
      by (intros r H; congruence).
    destruct (String.eqb _ "+").
    + intros H. apply Hv in H. subst v. exists EmptyString, a, b, c, d, m. auto.
    + destruct (String.eqb _ "-"); [|discriminate].
      intros H. apply Hv in H. subst v. exists EmptyString, a, b, c, d, m. auto.
  - destruct (parse_chunk ch f v) as [[f1 v1]|] eqn:E; [|discriminate].
    intros H. apply IH in H as (y & a & b & c & d & m & Hv1 & Hm).
    apply parse_chunk_suffix in E as [z Hz].
    exists (z +:+ y), a, b, c, d, m. split; [|exact Hm].
    rewrite app_assoc', <- Hv1. exact Hz.
Qed.

End Suffix.

(** ** The checkpoint: line feeds and other text after the time *)

Section Trim.

Lemma TrimRight_newlines (k : nat) : TrimRight (newlines k) LF = EmptyString.
Proof. induction k as [|k IH]; [reflexivity|]. cbn [newlines TrimRight]. rewrite IH. reflexivity. Qed.

Lemma TrimRight_app_newlines (s : string) (k : nat) :
  TrimRight (s +:+ newlines k) LF = TrimRight s LF.
Proof.
  induction s as [|c s IH]; [rewrite app_empty_l; apply TrimRight_newlines|].
  rewrite app_cons. cbn [TrimRight]. rewrite IH. reflexivity.
Qed.

Lemma TrimRight_app_keep (a b cutset : string) :
  TrimRight b cutset ≠ EmptyString →
  TrimRight (a +:+ b) cutset = a +:+ TrimRight b cutset.
Proof.
  intros Hb. induction a as [|c a IH]; [reflexivity|].
  rewrite !app_cons. cbn [TrimRight]. rewrite IH.
  destruct (a +:+ TrimRight b cutset) eqn:E; [|reflexivity].
  exfalso. destruct a; [|discriminate]. rewrite app_empty_l in E. contradiction.
Qed.

Lemma is_digit_not_LF (m : ascii) : is_digit m = true → in_cutset m LF = false.
Proof.
  intros H. unfold LF. cbn [in_cutset]. destruct (Ascii.eqb m (ascii_of_nat 10)) eqn:E; [|reflexivity].
  apply Ascii.eqb_eq in E. subst m. discriminate H.
Qed.

(** A text that parses has no line feed at its end. *)
Lemma TrimRight_parsed (s : string) (t : Time) :
  Parse DateFormat s = Ok t → TrimRight s LF = s.
Proof.
  unfold Parse. change DateFormat with (before_zone ++ [stdNumTZ]).
  destruct (parse_loop _ fields0 s) as [f|] eqn:E; [|discriminate]. intros _.
  apply parse_loop_ends_in_digit in E as (y & a & b & c & d & m & -> & Hm).
  assert (Hz : TrimRight (String a (String b (String c (String d (String m EmptyString))))) LF
               = String a (String b (String c (String d (String m EmptyString))))).
  { cbn [TrimRight]. rewrite (is_digit_not_LF m Hm). reflexivity. }
  rewrite TrimRight_app_keep; rewrite Hz; [reflexivity | discriminate].
Qed.

Lemma readCheckTime_with_check (env : Env) (b : string) (w : World) :
  checkFileName ∉ dirs w → checkFileName ∉ denied w →
  readCheckTime env checkFileName (with_check b w)
  = (Parse DateFormat (TrimRight b LF), with_check b w).
Proof.
  intros Hd Hx. apply readCheckTime_present; [apply lookup_insert_eq | exact Hd | exact Hx].
Qed.

End Trim.

(** C9. For a check file that holds a time in the layout: with any
    number of line feeds after it the loaded time is the same as for the
    bare text; any other text after it stays after the line feeds at the
    end are cut, and loading fails with the error of the parse. *)
Theorem C9_line_feeds_only (env : Env) (w : World) (s : string) (t : Time) :
  checkFileName ∉ dirs w → checkFileName ∉ denied w →
  Parse DateFormat s = Ok t →
  (∀ k, fst (readCheckTime env checkFileName (with_check (s +:+ newlines k) w)) = Ok t)
  ∧ (∀ e, TrimRight e LF ≠ EmptyString →
          TrimRight (s +:+ e) LF = s +:+ TrimRight e LF
          ∧ ∃ err, fst (readCheckTime env checkFileName (with_check (s +:+ e) w)) = Err err).
Proof.
  intros Hd Hx Hp. split.
  - intros k. rewrite readCheckTime_with_check by assumption.
    rewrite TrimRight_app_newlines, (TrimRight_parsed s t Hp). exact Hp.
  - intros e He. split; [apply TrimRight_app_keep, He|].
    rewrite readCheckTime_with_check by assumption.
    rewrite TrimRight_app_keep by exact He.
    destruct (Parse_extra_text s (TrimRight e LF) t Hp He) as [err Herr].
    exists err. cbn [fst]. exact Herr.
Qed.

Lemma C9_witness :
  fst (readCheckTime (Sample.env1 Sample.sound_repo) checkFileName
         (with_check ("Thu Jan 01 08:20:00 1970 +0800" +:+ newlines 2) Sample.world_first))
    = Ok (Sample.at_sec 1200)
  ∧ ∃ err, fst (readCheckTime (Sample.env1 Sample.sound_repo) checkFileName
                  (with_check ("Thu Jan 01 08:20:00 1970 +0800" +:+ (Sample.CR +:+ LF))
                              Sample.world_first)) = Err err.
Proof.
  assert (Hd : checkFileName ∉ dirs Sample.world_first) by (cbn; set_solver).
  assert (Hx : checkFileName ∉ denied Sample.world_first) by (cbn; set_solver).
  assert (Hp : Parse DateFormat "Thu Jan 01 08:20:00 1970 +0800" = Ok (Sample.at_sec 1200))
    by (vm_compute; reflexivity).
  split.
  - exact (proj1 (C9_line_feeds_only (Sample.env1 Sample.sound_repo) Sample.world_first
                    _ _ Hd Hx Hp) 2%nat).
  - refine (proj2 (proj2 (C9_line_feeds_only (Sample.env1 Sample.sound_repo) Sample.world_first
                    _ _ Hd Hx Hp) (Sample.CR +:+ LF) _)).
    vm_compute. discriminate.
Defined.

(** ** The calendar *)

Section Calendar.

Lemma all_from_spec (n : nat) (z : Z) (P : Z → bool) :
  all_from n z P = true → ∀ x, z <= x < z + Z.of_nat n → P x = true.
Proof.
  revert z. induction n as [|n IH]; intros z H x Hx; [lia|].
  cbn [all_from] in H. apply andb_prop in H as [Hz Hn].
  destruct (Z.eq_dec x z) as [-> | Hne]; [exact Hz|].
  apply (IH (z + 1) Hn). lia.
Qed.

(** Every day of one cycle of 400 years, by computation. *)
Lemma calendar_cycle : all_from 146097 0 calendar_ok = true.
Proof. vm_cast_no_check (eq_refl true). Qed.

Lemma rem_eqb_mod (a b : Z) : b ≠ 0 → (Z.rem a b =? 0) = (a mod b =? 0).
Proof.
  intros Hb. destruct (Z.rem a b =? 0) eqn:E1; destruct (a mod b =? 0) eqn:E2; try reflexivity.
  - apply Z.eqb_eq in E1. apply Z.eqb_neq in E2. apply Z.rem_mod_eq_0 in E1; [contradiction|exact Hb].
  - apply Z.eqb_neq in E1. apply Z.eqb_eq in E2. apply Z.rem_mod_eq_0 in E2; [contradiction|exact Hb].
Qed.

Lemma isLeap_cycle (y k : Z) : isLeap (y + 400 * k) = isLeap y.
Proof.
  unfold isLeap. rewrite !rem_eqb_mod by lia.
  replace ((y + 400 * k) mod 4) with (y mod 4)
    by (replace (y + 400 * k) with (y + (100 * k) * 4) by ring; symmetry; apply Z_mod_plus_full).
  replace ((y + 400 * k) mod 100) with (y mod 100)
    by (replace (y + 400 * k) with (y + (4 * k) * 100) by ring; symmetry; apply Z_mod_plus_full).
  replace ((y + 400 * k) mod 400) with (y mod 400)
    by (replace (y + 400 * k) with (y + k * 400) by ring; symmetry; apply Z_mod_plus_full).
  reflexivity.
Qed.

Lemma daysIn_cycle (m y k : Z) : daysIn m (y + 400 * k) = daysIn m y.
Proof. unfold daysIn. rewrite isLeap_cycle. reflexivity. Qed.

Lemma monthDay_cycle (y k yday : Z) : monthDay (y + 400 * k) yday = monthDay y yday.
Proof. unfold monthDay. rewrite isLeap_cycle. reflexivity. Qed.

Lemma daysSinceEpoch_cycle (y k : Z) :
  daysSinceEpoch (y + 400 * k) = daysSinceEpoch y + 146097 * k.
Proof.
  unfold daysSinceEpoch. cbv zeta.
  replace (y + 400 * k - 1) with (y - 1 + k * 400) by ring.
  rewrite Z.div_add by lia.
  replace (y - 1 + k * 400 - 400 * ((y - 1) / 400 + k)) with (y - 1 - 400 * ((y - 1) / 400))
    by ring.
  change daysPer400Years with 146097. ring.
Qed.

Lemma absDate_cycle (d k : Z) :
  absDate (d + 146097 * k) = (fst (absDate d) + 400 * k, snd (absDate d)).
Proof.
  unfold absDate. cbv zeta. change daysPer400Years with 146097.
  replace (d + 146097 * k) with (d + k * 146097) by ring.
  rewrite Z.div_add by lia.
  replace (d + k * 146097 - 146097 * (d / 146097 + k)) with (d - 146097 * (d / 146097))
    by ring.
  cbn [fst snd]. f_equal. ring.
Qed.

Lemma calendar_ok_cycle (d k : Z) : calendar_ok (d + 146097 * k) = calendar_ok d.
Proof.
  unfold calendar_ok. rewrite absDate_cycle.
  destruct (absDate d) as [year yday]. cbn [fst snd].
  rewrite monthDay_cycle. destruct (monthDay year yday) as [month day].
  rewrite daysIn_cycle, isLeap_cycle, daysSinceEpoch_cycle.
  f_equal.
  destruct (_ =? d) eqn:E.
  - apply Z.eqb_eq in E. apply Z.eqb_eq. lia.
  - apply Z.eqb_neq in E. apply Z.eqb_neq. lia.
Qed.

(** The date of every day is a day of its month, and [Date] leads back
    to the day. *)
Lemma calendar_ok_all (d : Z) : calendar_ok d = true.
Proof.
  replace d with (d mod 146097 + 146097 * (d / 146097))
    by (pose proof (Z.div_mod d 146097); lia).
  rewrite calendar_ok_cycle.
  apply (all_from_spec _ _ _ calendar_cycle).
  assert (Hn : Z.of_nat 146097 = 146097) by (vm_compute; reflexivity).
  rewrite Hn. pose proof (Z.mod_pos_bound d 146097). lia.
Qed.

End Calendar.

(** ** Reading back what [Format] writes *)

Section ReadBack.

Ltac digit_cases d :=
  let H := fresh in
  assert (H : d = 0 ∨ d = 1 ∨ d = 2 ∨ d = 3 ∨ d = 4 ∨ d = 5 ∨ d = 6 ∨ d = 7 ∨ d = 8 ∨ d = 9)
    by lia;
  repeat (destruct H as [-> | H]); [..| subst d].

Lemma digit_facts (d : Z) :
  0 <= d <= 9 →
  is_digit (digit d) = true ∧ code (digit d) - 48 = d ∧ Ascii.eqb (digit d) " " = false.
Proof. intros Hd. digit_cases d; repeat split; reflexivity. Qed.

Lemma appendInt_two (n : Z) : 0 <= n < 100 → appendInt n 2 = two n EmptyString.
Proof.
  intros Hn.
  assert (H : all_from 100 0 (fun n => String.eqb (appendInt n 2) (two n EmptyString)) = true)
    by (vm_compute; reflexivity).
  apply String.eqb_eq. apply (all_from_spec _ _ _ H). simpl Z.of_nat. lia.
Qed.

Lemma appendInt_four (n : Z) : 0 <= n < 10000 → appendInt n 4 = four n EmptyString.
Proof.
  intros Hn.
  assert (H : all_from 10000 0 (fun n => String.eqb (appendInt n 4) (four n EmptyString)) = true)
    by (vm_compute; reflexivity).
  assert (Hk : Z.of_nat 10000 = 10000) by (vm_compute; reflexivity).
  apply String.eqb_eq. apply (all_from_spec _ _ _ H). rewrite Hk. lia.
Qed.

Lemma two_app (n : Z) (rest : string) : two n EmptyString +:+ rest = two n rest.
Proof. reflexivity. Qed.

Lemma four_app (n : Z) (rest : string) : four n EmptyString +:+ rest = four n rest.
Proof. reflexivity. Qed.

Lemma getnum_two (n : Z) (rest : string) (fixed : bool) :
  0 <= n < 100 → getnum (two n rest) fixed = Some (n, rest).
Proof.
  intros Hn. unfold two, getnum, isDigit, digit_at, byte_at, slice_from.
  cbn [String.get Nat.eqb Nat.pred].
  destruct (digit_facts (n / 10)) as (Ha & Hca & _);
    [pose proof (Z.div_pos n 10); assert (n / 10 < 10) by (apply Z.div_lt_upper_bound; lia); lia|].
  destruct (digit_facts (n mod 10)) as (Hb & Hcb & _); [pose proof (Z.mod_pos_bound n 10); lia|].
  rewrite Ha, Hb, Hca, Hcb. cbn [negb]. change (Z.to_nat 2) with 2%nat. cbn [drop_bytes].
  do 2 f_equal. pose proof (Z.div_mod n 10). lia.
Qed.

Lemma cutspace_two (n : Z) (rest : string) : 0 <= n < 100 → cutspace (two n rest) = two n rest.
Proof.
  intros Hn. unfold two. rewrite cutspace_cons.
  destruct (digit_facts (n / 10)) as (_ & _ & ->);
    [pose proof (Z.div_pos n 10); assert (n / 10 < 10) by (apply Z.div_lt_upper_bound; lia); lia|].
  reflexivity.
Qed.

Lemma cutspace_four (n : Z) (rest : string) :
  0 <= n < 10000 → cutspace (four n rest) = four n rest.
Proof.
  intros Hn. unfold four. rewrite cutspace_cons.
  destruct (digit_facts (n / 1000)) as (_ & _ & ->);
    [pose proof (Z.div_pos n 1000); assert (n / 1000 < 10) by (apply Z.div_lt_upper_bound; lia);
     lia|].
  reflexivity.
Qed.

(** The names of the days and months are found again. *)
Lemma day_name_found (i : Z) (rest : string) :
  0 <= i < 7 → lookup shortDayNames (name_at shortDayNames i +:+ rest) = Some (i, rest).
Proof.
  intros Hi. unfold lookup.
  assert (H : i = 0 ∨ i = 1 ∨ i = 2 ∨ i = 3 ∨ i = 4 ∨ i = 5 ∨ i = 6) by lia.
  rewrite (lookup_from_app _ _ _ _ shortDayNames_3);
    repeat (destruct H as [-> | H]); try subst i; (reflexivity || (simpl; lia)).
Qed.

Lemma month_name_found (m : Z) (rest : string) :
  1 <= m <= 12 →
  lookup shortMonthNames (name_at shortMonthNames (m - 1) +:+ rest) = Some (m - 1, rest)
  ∧ cutspace (name_at shortMonthNames (m - 1) +:+ rest)
    = name_at shortMonthNames (m - 1) +:+ rest.
Proof.
  intros Hm. unfold lookup.
  assert (H : m = 1 ∨ m = 2 ∨ m = 3 ∨ m = 4 ∨ m = 5 ∨ m = 6 ∨ m = 7 ∨ m = 8 ∨ m = 9
              ∨ m = 10 ∨ m = 11 ∨ m = 12) by lia.
  rewrite (lookup_from_app _ _ _ _ shortMonthNames_3);
    repeat (destruct H as [-> | H]); try subst m;
    ((split; reflexivity) || (simpl; lia)).
Qed.

Lemma skip_space (r : string) : cutspace r = r → skip (String " " r) " " = Some r.
Proof. intros Hr. unfold skip. cbn. rewrite Hr. reflexivity. Qed.

Lemma skip_byte (c : ascii) (r : string) :
  Ascii.eqb c " " = false → skip (String c r) (String c EmptyString) = Some r.
Proof. intros Hc. unfold skip. cbn [String.length skip_from]. rewrite Hc, Ascii.eqb_refl. reflexivity. Qed.

Lemma parse_zone_text (f : fields) (sg : ascii) (hh mm : Z) :
  0 <= hh <= 24 → 0 <= mm < 60 →
  parse_chunk stdNumTZ f (String sg (two hh (two mm EmptyString))) =
    if Ascii.eqb sg "+" then Ok (set_zoneOffset f ((hh * 60 + mm) * 60 + 0), EmptyString)
    else if Ascii.eqb sg "-" then Ok (set_zoneOffset f (- ((hh * 60 + mm) * 60 + 0)), EmptyString)
    else Err errBad.
Proof.
  intros Hh Hm. cbn [parse_chunk].
  change (len (String sg (two hh (two mm EmptyString))) <? 5) with false. cbv iota.
  change (slice_to (slice_from (String sg (two hh (two mm EmptyString))) 1) 2)
    with (two hh EmptyString).
  change (slice_to (slice_from (String sg (two hh (two mm EmptyString))) 3) 2)
    with (two mm EmptyString).
  change (slice_from (String sg (two hh (two mm EmptyString))) 5) with EmptyString.
  change (slice_to (String sg (two hh (two mm EmptyString))) 1) with (String sg EmptyString).
  rewrite !getnum_two by lia.
  change (getnum "00" true) with (Some (0, EmptyString)). cbv iota beta.
  replace (24 <? hh) with false by (symmetry; apply Z.ltb_ge; lia).
  replace (60 <? mm) with false by (symmetry; apply Z.ltb_ge; lia).
  change (60 <? 0) with false. cbv iota.
  change (String.eqb (String sg EmptyString) "+") with (if Ascii.eqb sg "+" then true else false).
  change (String.eqb (String sg EmptyString) "-") with (if Ascii.eqb sg "-" then true else false).
  destruct (Ascii.eqb sg "+"); [reflexivity|]. destruct (Ascii.eqb sg "-"); reflexivity.
Qed.

Lemma parse_year_text (f : fields) (y : Z) (rest : string) :
  0 <= y < 10000 → parse_chunk stdLongYear f (four y rest) = Ok (set_year f y, rest).
Proof.
  intros Hy. cbn [parse_chunk].
  assert (Hd : ∀ q, 0 <= q <= 9 → is_digit (digit q) = true ∧ code (digit q) - 48 = q)
    by (intros q Hq; destruct (digit_facts q Hq) as (? & ? & _); auto).
  destruct (Hd (y / 1000)) as [Ha Hca];
    [pose proof (Z.div_pos y 1000); assert (y / 1000 < 10) by (apply Z.div_lt_upper_bound; lia);
     lia|].
  destruct (Hd (y / 100 mod 10)) as [Hb Hcb]; [pose proof (Z.mod_pos_bound (y / 100) 10); lia|].
  destruct (Hd (y / 10 mod 10)) as [Hc Hcc]; [pose proof (Z.mod_pos_bound (y / 10) 10); lia|].
  destruct (Hd (y mod 10)) as [Hdd Hcd]; [pose proof (Z.mod_pos_bound y 10); lia|].
  assert (Hlen : (len (four y rest) <? 4) = false).
  { apply Z.ltb_ge. unfold len, four. cbn [String.length]. lia. }
  rewrite Hlen. unfold isDigit, byte_at, four. cbn [String.get]. rewrite Ha. cbn [negb orb].
  unfold slice_to, slice_from. change (Z.to_nat 4) with 4%nat. cbn [take_bytes drop_bytes].
  unfold atoi.
  assert (Hsign : ∀ x : string,
            match String (digit (y / 1000)) x with
            | String "-"%char s' => (true, s')
            | String "+"%char s' => (false, s')
            | _ => (false, String (digit (y / 1000)) x)
            end = (false, String (digit (y / 1000)) x)).
  { intros x.
    assert (Hq : 0 <= y / 1000 <= 9)
      by (pose proof (Z.div_pos y 1000); assert (y / 1000 < 10)
            by (apply Z.div_lt_upper_bound; lia); lia).
    revert Hq. generalize (y / 1000). intros q Hq. digit_cases q; reflexivity. }
  rewrite Hsign. cbn [leadingInt]. rewrite Ha, Hb, Hc, Hdd, Hca, Hcb, Hcc, Hcd.
  do 3 f_equal.
  pose proof (Z.div_mod y 10). pose proof (Z.div_mod (y / 10) 10).
  pose proof (Z.div_mod (y / 100) 10).
  assert (y / 10 / 10 = y / 100) by (rewrite Z.div_div by lia; reflexivity).
  assert (y / 100 / 10 = y / 1000) by (rewrite Z.div_div by lia; reflexivity).
  assert (y / 1000 < 10) by (apply Z.div_lt_upper_bound; lia).
  assert (y / 1000 / 10 = 0) by (apply Z.div_small; pose proof (Z.div_pos y 1000); lia).
  lia.
Qed.

Lemma parse_second_text (f : fields) (s : Z) (r : string) :
  0 <= s < 60 →
  parse_chunk stdZeroSecond f (two s (String " " r)) = Ok (set_sec f s, String " " r).
Proof.
  intros Hs. cbn [parse_chunk]. rewrite getnum_two by lia.
  replace ((s <? 0) || (60 <=? s)) with false
    by (symmetry; apply orb_false_intro; [apply Z.ltb_ge | apply Z.leb_gt]; lia).
  unfold fraction. change (commaOrPeriod " ") with false. rewrite andb_false_r. reflexivity.
Qed.

(** The fields that the loop of [Parse] reads from a text of the shape
    that [Format] writes. *)
Lemma parse_text (wd month day hour min s year hh mm : Z) (sg : ascii) :
  0 <= wd < 7 → 1 <= month <= 12 → 0 <= day < 100 → 0 <= hour < 24 → 0 <= min < 60 →
  0 <= s < 60 → 0 <= year < 10000 → 0 <= hh <= 24 → 0 <= mm < 60 →
  Ascii.eqb sg " " = false →
  parse_loop DateFormat fields0
    (name_at shortDayNames wd +:+ String " "
      (name_at shortMonthNames (month - 1) +:+ String " "
        (two day (String " " (two hour (String ":" (two min (String ":"
          (two s (String " " (four year (String " "
            (String sg (two hh (two mm EmptyString)))))))))))))))
  = match parse_chunk stdNumTZ (mkFields year month day hour min s 0 (-1))
                      (String sg (two hh (two mm EmptyString))) with
    | Ok (f, EmptyString) => Ok f
    | Ok (f, _) => Err (ErrParse "extra text")
    | Err e => Err e
    end.
Proof.
  intros Hwd Hmo Hd Hh Hmi Hs Hy Hhh Hmm Hsg.
  destruct (month_name_found month
              (String " " (two day (String " " (two hour (String ":" (two min (String ":"
                 (two s (String " " (four year (String " "
                    (String sg (two hh (two mm EmptyString))))))))))))))
              Hmo) as [Hmonth Hcut].
  unfold DateFormat. cbn [parse_loop].
  (* the day of the week *)
  cbn [parse_chunk]. rewrite day_name_found by exact Hwd. cbv iota beta.
  (* a space, the month *)
  rewrite skip_space by exact Hcut. cbv iota beta.
  rewrite Hmonth. cbv iota beta.
  (* a space, the day *)
  rewrite skip_space by (apply cutspace_two; exact Hd). cbv iota beta.
  rewrite getnum_two by exact Hd. cbv iota beta.
  (* a space, the hour *)
  rewrite skip_space by (apply cutspace_two; lia). cbv iota beta.
  rewrite getnum_two by lia.
  replace ((hour <? 0) || (24 <=? hour)) with false
    by (symmetry; apply orb_false_intro; [apply Z.ltb_ge | apply Z.leb_gt]; lia).
  cbv iota beta.
  (* a colon, the minute *)
  rewrite skip_byte by reflexivity. cbv iota beta.
  rewrite getnum_two by lia.
  replace ((min <? 0) || (60 <=? min)) with false
    by (symmetry; apply orb_false_intro; [apply Z.ltb_ge | apply Z.leb_gt]; lia).
  cbv iota beta.
  (* a colon, the second *)
  rewrite skip_byte by reflexivity. cbv iota beta.
  fold (parse_chunk stdZeroSecond
          (set_min (set_hour (set_day (set_month fields0 (month - 1 + 1)) day) hour) min)
          (two s (String " " (four year (String " " (String sg (two hh (two mm EmptyString)))))))).
  rewrite parse_second_text by exact Hs. cbv iota beta.
  (* a space, the year *)
  rewrite skip_space by (apply cutspace_four; exact Hy). cbv iota beta.
  fold (parse_chunk stdLongYear
          (set_sec (set_min (set_hour (set_day (set_month fields0 (month - 1 + 1)) day) hour) min) s)
          (four year (String " " (String sg (two hh (two mm EmptyString)))))).
  rewrite parse_year_text by exact Hy. cbv iota beta.
  (* a space, the zone *)
  rewrite skip_space by (rewrite cutspace_cons, Hsg; reflexivity). cbv iota beta.
  replace (month - 1 + 1) with month by ring.
  reflexivity.
Qed.

End ReadBack.

(** ** Saving and loading the checkpoint *)

Section RoundTrip.

Lemma clock_ranges (t : Time) :
  let '(h, m, s) := clock t in
  0 <= h < 24 ∧ 0 <= m < 60 ∧ 0 <= s < 60
  ∧ h * 3600 + m * 60 + s = abs_ t mod secondsPerDay.
Proof.
  unfold clock, secondsPerDay. cbv zeta.
  pose proof (Z.mod_pos_bound (abs_ t) 86400).
  generalize dependent (abs_ t mod 86400). intros x Hx.
  assert (0 <= x < 86400) by lia. clear Hx.
  pose proof (Z.div_mod x 3600). pose proof (Z.mod_pos_bound x 3600).
  pose proof (Z.div_mod (x mod 3600) 60). pose proof (Z.mod_pos_bound (x mod 3600) 60).
  assert (x mod 60 = x mod 3600 mod 60).
  { clear. Z.div_mod_to_equations. lia. }
  assert (0 <= x / 3600 < 24)
    by (split; [apply Z.div_pos; lia | apply Z.div_lt_upper_bound; lia]).
  assert (0 <= x mod 3600 / 60 < 60)
    by (split; [apply Z.div_pos; lia | apply Z.div_lt_upper_bound; lia]).
  repeat split; lia.
Qed.

Lemma weekday_range (t : Time) : 0 <= weekday t < 7.
Proof. unfold weekday. apply Z.mod_pos_bound. lia. Qed.

Lemma daysIn_at_most_31 (m y : Z) : 1 <= m <= 12 → daysIn m y <= 31.
Proof.
  intros Hm. unfold daysIn.
  assert (H : m = 1 ∨ m = 2 ∨ m = 3 ∨ m = 4 ∨ m = 5 ∨ m = 6 ∨ m = 7 ∨ m = 8 ∨ m = 9
              ∨ m = 10 ∨ m = 11 ∨ m = 12) by lia.
  repeat (destruct H as [-> | H]); try subst m; destruct (isLeap y); vm_compute; discriminate.
Qed.

(** The date of a time is a day of its month, and counts back to the
    day of the time. *)
Lemma date_ok (t : Time) :
  let '(y, mo, d) := date t in
  1 <= mo <= 12 ∧ 1 <= d <= daysIn mo y
  ∧ daysSinceEpoch y + at_ daysBefore (mo - 1)
    + (if isLeap y && (3 <=? mo) then 1 else 0) + (d - 1) = abs_ t / secondsPerDay.
Proof.
  unfold date. pose proof (calendar_ok_all (abs_ t / secondsPerDay)) as H.
  unfold calendar_ok in H.
  destruct (absDate (abs_ t / secondsPerDay)) as [y yday].
  destruct (monthDay y yday) as [mo d].
  repeat (apply andb_prop in H as [H ?]).
  repeat match goal with
         | H : (_ <=? _) = true |- _ => apply Z.leb_le in H
         | H : (_ =? _) = true |- _ => apply Z.eqb_eq in H
         end.
  repeat split; assumption.
Qed.

(** [Date] on values in range. *)
Lemma Date_in_range (y mo d h mi s off : Z) :
  1 <= mo <= 12 → 0 <= h < 24 → 0 <= mi < 60 → 0 <= s < 60 →
  Date y mo d h mi s 0 off =
    mkTime ((daysSinceEpoch y + at_ daysBefore (mo - 1)
             + (if isLeap y && (3 <=? mo) then 1 else 0) + (d - 1)) * secondsPerDay
            + h * 3600 + mi * 60 + s - unixEpochDays * secondsPerDay - off) 0 off.
Proof.
  intros Hmo Hh Hmi Hs. unfold Date, norm.
  rewrite (Z.div_small (mo - 1) 12), (Z.mod_small (mo - 1) 12) by lia.
  change (0 / 1000000000) with 0. change (0 mod 1000000000) with 0.
  rewrite !Z.add_0_r.
  rewrite (Z.div_small s 60), (Z.mod_small s 60) by lia. rewrite !Z.add_0_r.
  rewrite (Z.div_small mi 60), (Z.mod_small mi 60) by lia. rewrite !Z.add_0_r.
  rewrite (Z.div_small h 24), (Z.mod_small h 24) by lia. rewrite !Z.add_0_r.
  replace (mo - 1 + 1) with mo by ring.
  destruct (isLeap y && (3 <=? mo)); f_equal; ring.
Qed.

End RoundTrip.

Section SaveLoad.

(** The sign and the digits of the zone that [Format] writes. *)
Lemma zone_text (off : Z) :
  off mod 60 = 0 → -86400 < off < 86400 →
  let zone := Z.quot off 60 in
  let sg := if zone <? 0 then "-"%char else "+"%char in
  let z := if zone <? 0 then - zone else zone in
  0 <= z / 60 <= 24 ∧ 0 <= Z.rem z 60 < 60
  ∧ appendInt (z / 60) 2 = two (z / 60) EmptyString
  ∧ appendInt (Z.rem z 60) 2 = two (Z.rem z 60) EmptyString
  ∧ (if Ascii.eqb sg "+" then (z / 60 * 60 + Z.rem z 60) * 60 + 0
     else - ((z / 60 * 60 + Z.rem z 60) * 60 + 0)) = off.
Proof.
  intros Hm Hr. cbv zeta.
  assert (Hq : Z.quot off 60 = off / 60).
  { apply Z.quot_div_exact; [lia|]. apply Z.mod_divide; [lia | exact Hm]. }
  rewrite Hq. pose proof (Z.div_mod off 60).
  set (q := off / 60) in *.
  assert (Hz : ∀ z, 0 <= z < 1440 →
               0 <= z / 60 <= 24 ∧ 0 <= Z.rem z 60 < 60
               ∧ appendInt (z / 60) 2 = two (z / 60) EmptyString
               ∧ appendInt (Z.rem z 60) 2 = two (Z.rem z 60) EmptyString
               ∧ z / 60 * 60 + Z.rem z 60 = z).
  { intros z Hz. rewrite Z.rem_mod_nonneg by lia.
    pose proof (Z.div_mod z 60). pose proof (Z.mod_pos_bound z 60).
    assert (0 <= z / 60 < 24)
      by (split; [apply Z.div_pos; lia | apply Z.div_lt_upper_bound; lia]).
    repeat split; try lia; apply appendInt_two; lia. }
  destruct (q <? 0) eqn:E.
  - apply Z.ltb_lt in E. destruct (Hz (- q)) as (? & ? & ? & ? & Hsum); [lia|].
    repeat split; try assumption; try lia.
    change (Ascii.eqb "-" "+") with false. cbv iota. rewrite Hsum. lia.
  - apply Z.ltb_ge in E. destruct (Hz q) as (? & ? & ? & ? & Hsum); [lia|].
    repeat split; try assumption; try lia.
    change (Ascii.eqb "+" "+") with true. cbv iota. rewrite Hsum. lia.
Qed.

(** What [Parse] reads back from the text that [Format] writes for a
    time that the layout can express: the same second and offset, no
    nanoseconds. *)
Lemma Parse_Format (t : Time) :
  expressible t →
  Parse DateFormat (Format t DateFormat) = Ok (mkTime (sec t) 0 (offset t)).
Proof.
  intros (Hyear & Hmod & Hoff). unfold year_of in Hyear.
  pose proof (date_ok t) as Hdate. pose proof (clock_ranges t) as Hclock.
  pose proof (weekday_range t) as Hwd.
  destruct (zone_text (offset t) Hmod Hoff) as (Hhh & Hmm & Hth & Htm & Hzone).
  unfold Parse, DateFormat at 2. cbn [Format]. unfold format_chunk.
  destruct (date t) as [[y mo] d]. destruct (clock t) as [[h mi] s].
  cbn [fst] in Hyear. destruct Hdate as (Hmo & Hd & Hdays).
  destruct Hclock as (Hh & Hmi & Hs & Hsod).
  pose proof (daysIn_at_most_31 mo y Hmo) as H31.
  rewrite Hth, Htm.
  rewrite !appendInt_two by lia. rewrite appendInt_four by lia.
  rewrite app_empty_r.
  repeat rewrite ?two_app, ?four_app, ?app_cons, ?app_empty_l.
  set (zone := Z.quot (offset t) 60) in *.
  set (sg := if zone <? 0 then "-"%char else "+"%char) in *.
  set (z := if zone <? 0 then - zone else zone) in *.
  replace (if zone <? 0 then "-" else "+") with (String sg EmptyString)
    by (unfold sg; destruct (zone <? 0); reflexivity).
  rewrite app_cons, app_empty_l.
  rewrite parse_text; try lia; [|unfold sg; destruct (zone <? 0); reflexivity].
  rewrite parse_zone_text by lia.
  assert (Hsg : Ascii.eqb sg "+" = true ∨ (Ascii.eqb sg "+" = false ∧ Ascii.eqb sg "-" = true))
    by (unfold sg; destruct (zone <? 0); [right | left]; auto).
  assert (Hfinal : ∀ zo, zo = offset t →
    (let f := set_zoneOffset (mkFields y mo d h mi s 0 (-1)) zo in
     let month := if p_month f <? 0 then 1 else p_month f in
     let day := if p_day f <? 0 then 1 else p_day f in
     if (day <? 1) || (daysIn month (p_year f) <? day)
     then Err (ErrParse "day out of range")
     else
       let t' := Date (p_year f) month day (p_hour f) (p_min f) (p_sec f) (p_nsec f) 0 in
       if p_zoneOffset f =? -1 then Ok t'
       else Ok (mkTime (sec t' - p_zoneOffset f) (nsec t') (p_zoneOffset f)))
    = Ok (mkTime (sec t) 0 (offset t))).
  { intros zo ->. cbv zeta. cbn [set_zoneOffset p_year p_month p_day p_hour p_min p_sec p_nsec
                                 p_zoneOffset].
    replace (mo <? 0) with false by (symmetry; apply Z.ltb_ge; lia).
    replace (d <? 0) with false by (symmetry; apply Z.ltb_ge; lia).
    replace ((d <? 1) || (daysIn mo y <? d)) with false
      by (symmetry; apply orb_false_intro; apply Z.ltb_ge; lia).
    replace (offset t =? -1) with false
      by (symmetry; apply Z.eqb_neq; intros Heq; rewrite Heq in Hmod; discriminate Hmod).
    rewrite Date_in_range by lia. cbn [sec nsec]. rewrite Hdays.
    do 2 f_equal. unfold abs_ in *. pose proof (Z.div_mod (sec t + offset t + unixEpochDays * secondsPerDay) secondsPerDay).
    unfold secondsPerDay in *. lia. }
  destruct Hsg as [Hp | [Hp Hn]].
  - rewrite Hp in Hzone |- *. apply Hfinal. exact Hzone.
  - rewrite Hp in Hzone |- *. rewrite Hn. apply Hfinal. exact Hzone.
Qed.

End SaveLoad.

(** C5. Saving the start time and loading it again gives the start
    time without its nanoseconds: the same second and the same offset.
    This holds for the times that the layout can express, when the
    check file can be opened and the device has room for the text. *)
Theorem C5_save_then_load (env env' : Env) (w : World) :
  expressible (start env) →
  checkFileName ∉ dirs w → checkFileName ∉ denied w →
  (String.length (Format (start env) DateFormat)
   <= free w + String.length (default EmptyString (files w !! checkFileName)))%nat →
  fst (writeCheckTime env checkFileName w) = Ok tt
  ∧ fst (readCheckTime env' checkFileName (snd (writeCheckTime env checkFileName w)))
    = Ok (mkTime (sec (start env)) 0 (offset (start env)))
  ∧ (nsec (start env) = 0 →
     fst (readCheckTime env' checkFileName (snd (writeCheckTime env checkFileName w)))
     = Ok (start env))
  ∧ (0 <= nsec (start env) < 1000000000 →
     instant (mkTime (sec (start env)) 0 (offset (start env))) <= instant (start env)
     ∧ instant (start env)
       < instant (mkTime (sec (start env)) 0 (offset (start env))) + 1000000000).
Proof.
  intros Hexp Hdir Hden Hroom.
  pose proof (Parse_Format _ Hexp) as Hparse.
  assert (Hload : fst (readCheckTime env' checkFileName
                         (snd (writeCheckTime env checkFileName w)))
                  = Ok (mkTime (sec (start env)) 0 (offset (start env)))).
  { unfold writeCheckTime, bind, OpenFile, ignore_err.
    revert Hparse Hroom. generalize (Format (start env) DateFormat). intros txt Hparse Hroom.
    rewrite !decide_False by assumption. cbn [fst snd].
    set (w1 := mkWorld _ _ _ _ _).
    assert (Hopen : files w1 !! checkFileName = Some EmptyString)
      by (subst w1; cbn [files]; apply lookup_insert_eq).
    rewrite (WriteString_fits _ _ EmptyString w1 Hopen) by (subst w1; cbn [free]; exact Hroom).
    cbn [snd]. rewrite (readCheckTime_present env' checkFileName txt).
    - cbn [fst]. rewrite (TrimRight_parsed txt _ Hparse). exact Hparse.
    - subst w1. cbn [files]. rewrite insert_insert_eq. apply lookup_insert_eq.
    - subst w1. cbn [dirs]. exact Hdir.
    - subst w1. cbn [denied]. exact Hden.
  }
  split; [|split; [exact Hload | split]].
  - unfold writeCheckTime, bind, OpenFile, ignore_err.
    rewrite !decide_False by assumption. reflexivity.
  - intros Hns. rewrite Hload. destruct (start env) as [s n o]. cbn in *. subst n. reflexivity.
  - intros Hns. unfold instant. cbn [sec nsec]. lia.
Qed.

Lemma C5_witness :
  fst (readCheckTime (Sample.env1 Sample.sound_repo) checkFileName
         (snd (writeCheckTime (Sample.env1 Sample.sound_repo) checkFileName
                 Sample.world_first)))
  = Ok (Sample.at_sec 1793459045).
Proof.
  refine (proj1 (proj2 (C5_save_then_load (Sample.env1 Sample.sound_repo)
                          (Sample.env1 Sample.sound_repo) Sample.world_first _ _ _ _))).
  - assert (Hy : year_of (start (Sample.env1 Sample.sound_repo)) = 2026)
      by (vm_compute; reflexivity).
    unfold expressible. rewrite Hy. cbn. repeat split; lia.
  - cbn. set_solver.
  - cbn. set_solver.
  - vm_compute. lia.
Defined.

(** * Further properties of main.go *)

(** ** prepareDir *)

(** [prepareDir]: a path that cannot be accessed is an error; a path
    that exists, as a directory or as a regular file, is left alone and
    is no error; a missing path becomes a directory, and a second call
    then changes nothing. *)
Theorem prepareDir_cases (dir : string) (w : World) :
  (dir ∈ denied w → prepareDir dir w = (Err ErrPermission, w))
  ∧ (dir ∉ denied w → dir ∈ dirs w ∨ is_Some (files w !! dir) →
     prepareDir dir w = (Ok tt, w))
  ∧ (dir ∉ denied w → dir ∉ dirs w → files w !! dir = None →
     prepareDir dir w
     = (Ok tt, mkWorld (files w) ({[dir]} ∪ dirs w) (denied w) (free w) (cleanPaths w))
     ∧ prepareDir dir (snd (prepareDir dir w)) = (Ok tt, snd (prepareDir dir w))).
Proof.
  split; [|split].
  - intros Hx. unfold prepareDir, Stat. rewrite decide_True by exact Hx. reflexivity.
  - intros Hx [Hd | [b Hf]]; unfold prepareDir, Stat; rewrite decide_False by exact Hx.
    + rewrite decide_True by exact Hd. reflexivity.
    + destruct (decide (dir ∈ dirs w)); [reflexivity|]. rewrite Hf. reflexivity.
  - intros Hx Hd Hf.
    assert (H1 : prepareDir dir w
                 = (Ok tt, mkWorld (files w) ({[dir]} ∪ dirs w) (denied w) (free w)
                                   (cleanPaths w))).
    { unfold prepareDir, Stat. rewrite !decide_False by assumption. rewrite Hf.
      cbn [IsNotExist]. unfold Mkdir. rewrite !decide_False by assumption. rewrite Hf.
      reflexivity. }
    split; [exact H1|]. rewrite H1. cbn [snd]. unfold prepareDir, Stat. cbn [denied dirs].
    rewrite decide_False by exact Hx.
    rewrite decide_True by (apply elem_of_union_l, elem_of_singleton; reflexivity).
    reflexivity.
Qed.

Lemma prepareDir_cases_witness :
  prepareDir resultDir Sample.world_first
  = (Ok tt, mkWorld (files Sample.world_first) ({[resultDir]} ∪ dirs Sample.world_first)
                    (denied Sample.world_first) (free Sample.world_first)
                    (cleanPaths Sample.world_first)).
Proof.
  refine (proj1 (proj2 (proj2 (prepareDir_cases resultDir Sample.world_first)) _ _ _)).
  - cbn. set_solver.
  - cbn. set_solver.
  - vm_compute. reflexivity.
Defined.

(** ** retrieveRepositories *)

Lemma cloneLinks_size (links : list Link) (m : gmap string string) :
  (size m <= size (cloneLinks links m) <= S (size m))%nat
  ∧ ∀ k, is_Some (m !! k) → is_Some (cloneLinks links m !! k).
Proof.
  rewrite cloneLinks_spec. destruct (https_link links) as [link|]; [|split; [lia | auto]].
  cbv zeta. set (val := slice_from _ _). split.
  - destruct (m !! name_of_url val) eqn:E.
    + rewrite map_size_insert_Some by eauto. lia.
    + rewrite map_size_insert_None by exact E. lia.
  - intros k Hk. destruct (decide (name_of_url val = k)) as [-> | Hne].
    + rewrite lookup_insert_eq. eauto.
    + rewrite lookup_insert_ne by exact Hne. exact Hk.
Qed.

(** An item whose clone links have no "https" in their text adds no
    repository; every item adds at most one entry, so the map has at
    most one entry more per listed item; and no entry is ever removed. *)
Theorem collect_one_entry_per_item (items : list Item) (m : gmap string string) :
  (∀ links, https_link links = None → cloneLinks links m = m)
  ∧ (size m <= size (collect items m) <= size m + length items)%nat
  ∧ ∀ k, is_Some (m !! k) → is_Some (collect items m !! k).
Proof.
  split; [intros links H; rewrite cloneLinks_spec, H; reflexivity|].
  revert m. unfold collect. induction items as [|item items IH]; intros m; cbn [fold_left length].
  - split; [lia | auto].
  - destruct (cloneLinks_size (Links_clone item) m) as [Hs Hk].
    destruct (IH (cloneLinks (Links_clone item) m)) as [Hs' Hk'].
    split; [lia|]. intros k H. apply Hk', Hk, H.
Qed.

Lemma collect_one_entry_per_item_witness :
  cloneLinks [Sample.link_ssh] ∅ = ∅.
Proof.
  apply (proj1 (collect_one_entry_per_item [] ∅) [Sample.link_ssh]).
  vm_compute. reflexivity.
Defined.

(** ** checkRepository: the order of the log *)



(** ** checkRepository and the clean-up *)







(** A clone that succeeded is recorded for the clean-up whatever
    happens afterwards in [checkRepository]; a clone that failed records
    nothing and leaves the world as it was. *)
Theorem checkRepository_records_clone (env : Env) (c : Config) (repos url fd : string)
    (lastTime : Time) (w : World) :
  (∀ repository w1, PlainClone env (Join (Clone c) repos) url w = (Ok repository, w1) →
     cleanPaths (snd (checkRepository env c repos url lastTime fd w))
     = cleanPaths w ++ [Join (Clone c) repos]
     ∧ Join (Clone c) repos ∈ dirs (snd (checkRepository env c repos url lastTime fd w)))
  ∧ (∀ e w1, PlainClone env (Join (Clone c) repos) url w = (Err e, w1) →
     checkRepository env c repos url lastTime fd w = (Err e, w)).
Proof.
  split.
  - intros repository w1 Hclone.
    assert (Hw1 : cleanPaths w1 = cleanPaths w ∧ Join (Clone c) repos ∈ dirs w1).
    { revert Hclone. unfold PlainClone. repeat case_decide; try discriminate.
      destruct (files w !! Join (Clone c) repos); [discriminate|].
      destruct (Remote env url); [|discriminate]. intros [= _ <-]. cbn [cleanPaths dirs].
      split; [reflexivity | apply elem_of_union_l, elem_of_singleton; reflexivity]. }
    destruct Hw1 as [Hcp Hdir].
    remember (snd (checkRepository env c repos url lastTime fd w)) as w3 eqn:Hw3.
    revert Hw3. unfold checkRepository, bind at 1. rewrite Hclone.
    unfold bind at 1. cbv beta iota.
    set (w2 := mkWorld _ _ _ _ _).
    assert (H2 : cleanPaths w2 = cleanPaths w ++ [Join (Clone c) repos]
                 ∧ Join (Clone c) repos ∈ dirs w2)
      by (subst w2; cbn [cleanPaths dirs]; rewrite Hcp; auto).
    clearbody w2. unfold bind, lift.
    destruct (Head repository) as [ref|e]; [|intros ->; exact H2].
    destruct (CommitObject repository ref) as [commit|e]; [|intros ->; exact H2].
    destruct (CommitTree commit) as [tree|e]; [|intros ->; exact H2].
    intros ->.
    destruct (writeReport_same_but env fd repos
                (fst (scanTree repository ref (Pattern c) lastTime tree)) w2)
      as (_ & _ & Hd & _ & Hc).
    rewrite Hc, Hd. exact H2.
  - intros e w1 Hclone. unfold checkRepository, bind at 1. rewrite Hclone. f_equal.
    revert Hclone. unfold PlainClone. repeat case_decide; try (intros [= _ <-]; reflexivity).
    destruct (files w !! Join (Clone c) repos); [intros [= _ <-]; reflexivity|].
    destruct (Remote env url); [discriminate | intros [= _ <-]; reflexivity].
Qed.

Lemma checkRepository_records_clone_witness :
  cleanPaths (snd (checkRepository (Sample.env1 Sample.broken_repo) Sample.conf1 "repo"
                     "https://host/repo.git" (Sample.at_sec 1200) "r.txt" Sample.world1))
  = cleanPaths Sample.world1 ++ [Join (Clone Sample.conf1) "repo"].
Proof.
  refine (proj1 (proj1 (checkRepository_records_clone (Sample.env1 Sample.broken_repo)
            Sample.conf1 "repo" "https://host/repo.git" "r.txt" (Sample.at_sec 1200)
            Sample.world1) Sample.broken_repo
            (mkWorld (files Sample.world1) ({[Join (Clone Sample.conf1) "repo"]} ∪ dirs Sample.world1)
                     (denied Sample.world1) (free Sample.world1) (cleanPaths Sample.world1)) _)).
  vm_compute. reflexivity.
Defined.


(** ** The loop of main *)

(** The loop over the repositories stops at the first repository whose
    check returns an error: the error is that of the loop, and the
    repositories after it are not visited. *)
Theorem checkAll_stops_at_first_error (env : Env) (conf : Config) (lastTime : Time)
    (fd repos url : string) (before after : list (string * string)) (w w1 w2 : World)
    (e : error) :
  checkAll env conf lastTime fd before w = (Ok tt, w1) →
  checkRepository env conf repos url lastTime fd w1 = (Err e, w2) →
  checkAll env conf lastTime fd (before ++ (repos, url) :: after) w = (Err e, w2).
Proof.
  revert w. induction before as [|[r u] before IH]; intros w; cbn [app checkAll].
  - unfold ret. intros [= <-] H. unfold bind. rewrite H. reflexivity.
  - unfold bind.
    destruct (checkRepository env conf r u lastTime fd w) as [[[]|e0] w0]; [|discriminate].
    apply IH.
Qed.

Lemma checkAll_stops_at_first_error_witness :
  fst (checkAll (Sample.env_one (Err (ErrGit "authentication required"))) Sample.conf1
         (Sample.at_sec 1200) "r.txt" ([] ++ ("a", "https://host/a.git") :: [("b", "https://host/b.git")])
         Sample.world1) = Err (ErrGit "authentication required").
Proof.
  rewrite (checkAll_stops_at_first_error
             (Sample.env_one (Err (ErrGit "authentication required"))) Sample.conf1
             (Sample.at_sec 1200) "r.txt" "a" "https://host/a.git" []
             [("b", "https://host/b.git")] Sample.world1 Sample.world1 Sample.world1
             (ErrGit "authentication required")); reflexivity.
Defined.

(** ** Writes that fail *)

(** A report line that does not fit on the device makes the loop over
    the result, and with it the end of [checkRepository], return the
    error of the write; the lines after it are not written. When the
    lines fit and only the empty line after them does not, no error is
    returned and the block ends without its separator. *)
Theorem writeReport_write_errors (env : Env) (fd repos old : string)
    (result : gmap string Time) (w : World) :
  files w !! fd = Some old →
  (∀ key val entries,
      range_result env (map_to_list result) = (key, val) :: entries →
      (free w < String.length (reportLine key repos val))%nat →
      fst (writeReport env fd repos result w) = Err ErrNoSpace
      ∧ files (snd (writeReport env fd repos result w)) !! fd
        = Some (old +:+ take_bytes (free w) (reportLine key repos val)))
  ∧ (result ≠ ∅ →
     String.length (lines_text repos (range_result env (map_to_list result))) = free w →
     fst (writeReport env fd repos result w) = Ok tt
     ∧ files (snd (writeReport env fd repos result w)) !! fd
       = Some (old +:+ lines_text repos (range_result env (map_to_list result)))).
Proof.
  intros Hfd. split.
  - intros key val entries Hrange Hshort.
    assert (H : writeReport env fd repos result w
                = (Err ErrNoSpace,
                   mkWorld (<[fd := old +:+ take_bytes (free w) (reportLine key repos val)]>
                              (files w))
                           (dirs w) (denied w) (free w - free w)%nat (cleanPaths w))).
    { unfold writeReport, bind at 1. rewrite Hrange.
      cbn [writeLines]. unfold bind at 1. unfold WriteString. rewrite Hfd.
      rewrite Nat.min_r by lia.
      replace (free w <? String.length (reportLine key repos val))%nat with true
        by (symmetry; apply Nat.ltb_lt; exact Hshort).
      reflexivity. }
    rewrite H. cbn [fst snd files]. split; [reflexivity | apply lookup_insert_eq].
  - intros Hne Hlen.
    assert (H : ∃ w', writeReport env fd repos result w = (Ok tt, w')
                      ∧ files w' !! fd
                        = Some (old +:+ lines_text repos (range_result env (map_to_list result)))).
    { unfold writeReport, bind.
      rewrite (writeLines_fits _ _ old) by (assumption || lia).
      rewrite (size_nonempty _ Hne). unfold ignore_err. eexists. split; [reflexivity|].
      unfold WriteString. cbn [files free]. rewrite lookup_insert_eq.
      rewrite Hlen, Nat.sub_diag, Nat.min_0_r. cbn [take_bytes].
      destruct (_ <? _)%nat; cbn [snd files]; rewrite lookup_insert_eq, app_empty_r;
        reflexivity. }
    destruct H as (w' & -> & Hw'). split; [reflexivity | exact Hw'].
Qed.

Lemma writeReport_write_errors_witness :
  fst (writeReport (Sample.env1 Sample.sound_repo) "r.txt" "repo" Sample.result2
         (mkWorld {[ "r.txt" := EmptyString ]} ∅ ∅ 10 [])) = Err ErrNoSpace.
Proof.
  refine (proj1 (proj1 (writeReport_write_errors (Sample.env1 Sample.sound_repo) "r.txt" "repo"
            EmptyString Sample.result2 (mkWorld {[ "r.txt" := EmptyString ]} ∅ ∅ 10 []) _)
            "conf/a.yml" (Sample.at_sec 2000) [("conf/b.yml", Sample.at_sec 3000)] _ _)).
  - vm_compute. reflexivity.
  - vm_compute. reflexivity.
  - vm_compute. lia.
Defined.

(** ** The check file *)

(** Only a check file that does not exist gives the default time: a
    path that cannot be accessed, or that is a directory, is an error
    of [readCheckTime], and the world is as before. *)
Theorem readCheckTime_inaccessible (env : Env) (filename : string) (w : World) :
  (filename ∈ denied w → readCheckTime env filename w = (Err ErrPermission, w))
  ∧ (filename ∉ denied w → filename ∈ dirs w →
     readCheckTime env filename w = (Err ErrPermission, w)).
Proof.
  split.
  - intros Hx. unfold readCheckTime, Stat. rewrite decide_True by exact Hx. reflexivity.
  - intros Hx Hd. unfold readCheckTime, Stat. rewrite decide_False by exact Hx.
    rewrite decide_True by exact Hd. unfold bind, ReadFile.
    rewrite decide_False by exact Hx. rewrite decide_True by exact Hd. reflexivity.
Qed.

Lemma readCheckTime_inaccessible_witness :
  readCheckTime (Sample.env1 Sample.sound_repo) checkFileName
    (mkWorld ∅ {[checkFileName]} ∅ 0 [])
  = (Err ErrPermission, mkWorld ∅ {[checkFileName]} ∅ 0 []).
Proof.
  refine (proj2 (readCheckTime_inaccessible (Sample.env1 Sample.sound_repo) checkFileName
                   (mkWorld ∅ {[checkFileName]} ∅ 0 [])) _ _).
  - cbn [denied]. set_solver.
  - cbn [dirs]. set_solver.
Defined.

(** [writeCheckTime] does not report a write that fails: on a device
    without free space and without a check file it returns no error and
    leaves an empty check file, which the next [readCheckTime] cannot
    parse. *)
Theorem writeCheckTime_short_write_unreported (env env' : Env) (w : World) :
  checkFileName ∉ dirs w → checkFileName ∉ denied w →
  files w !! checkFileName = None → free w = O →
  fst (writeCheckTime env checkFileName w) = Ok tt
  ∧ files (snd (writeCheckTime env checkFileName w)) !! checkFileName = Some EmptyString
  ∧ ∃ e, fst (readCheckTime env' checkFileName (snd (writeCheckTime env checkFileName w)))
         = Err e.
Proof.
  intros Hd Hx Hf Hfree.
  assert (Hw : ∃ w1, writeCheckTime env checkFileName w = (Ok tt, w1)
                     ∧ files w1 !! checkFileName = Some EmptyString
                     ∧ dirs w1 = dirs w ∧ denied w1 = denied w).
  { unfold writeCheckTime, bind, OpenFile, ignore_err.
    generalize (Format (start env) DateFormat). intros txt.
    rewrite !decide_False by assumption. rewrite Hf, Hfree. cbn [default String.length Nat.add].
    unfold WriteString. cbn [files free]. rewrite lookup_insert_eq.
    rewrite Nat.min_0_r. cbn [take_bytes].
    eexists. split; [reflexivity|].
    destruct (_ <? _)%nat; cbn [snd files dirs denied]; rewrite lookup_insert_eq; auto. }
  destruct Hw as (w1 & -> & Hf1 & Hd1 & Hx1). cbn [fst snd].
  split; [reflexivity|]. split; [exact Hf1|].
  rewrite (readCheckTime_present env' checkFileName EmptyString w1 Hf1)
    by (rewrite ?Hd1, ?Hx1; assumption).
  cbn [fst]. eexists. vm_compute. reflexivity.
Qed.

Lemma writeCheckTime_short_write_unreported_witness :
  files (snd (writeCheckTime (Sample.env1 Sample.sound_repo) checkFileName
                (mkWorld ∅ ∅ ∅ 0 []))) !! checkFileName = Some EmptyString.
Proof.
  refine (proj1 (proj2 (writeCheckTime_short_write_unreported (Sample.env1 Sample.sound_repo)
                   (Sample.env1 Sample.sound_repo) (mkWorld ∅ ∅ ∅ 0 []) _ _ _ _))).
  - cbn [dirs]. set_solver.
  - cbn [denied]. set_solver.
  - apply lookup_empty.
  - reflexivity.
Defined.

(** ** main without a configuration *)

(** On a first run in an empty directory [main] panics with the error
    of reading config.yml: the result directory has been made, no
    repository has been listed or cloned, and no report and no check
    file have been created. *)
Theorem main_without_config (env : Env) (w : World) :
  files w = ∅ → dirs w = ∅ → denied w = ∅ →
  main env w
  = (Err ErrNotExist, mkWorld ∅ ({[resultDir]} ∪ ∅) ∅ (free w) (cleanPaths w)).
Proof.
  intros Hf Hd Hx. destruct w as [fs ds dn fr cp]. cbn in Hf, Hd, Hx. subst fs ds dn.
  unfold main, bind at 1.
  destruct (prepareDir_cases resultDir (mkWorld ∅ ∅ ∅ fr cp)) as (_ & _ & Hprep).
  destruct Hprep as [-> _]; [cbn; set_solver | cbn; set_solver | apply lookup_empty|].
  cbn [files dirs denied free cleanPaths].
  unfold bind at 1.
  rewrite readCheckTime_absent;
    [| apply lookup_empty
     | cbn [dirs]; intros H; apply elem_of_union in H as [H | H];
       [apply elem_of_singleton in H; discriminate H | inversion H]
     | cbn [denied]; set_solver].
  unfold bind at 1, parseYamlFile, bind at 1, ReadFile. cbn [denied dirs files].
  rewrite decide_False by set_solver.
  rewrite decide_False
    by (intros H; apply elem_of_union in H as [H | H];
        [apply elem_of_singleton in H; discriminate H | inversion H]).
  rewrite lookup_empty. reflexivity.
Qed.

Lemma main_without_config_witness :
  fst (main (Sample.env1 Sample.sound_repo) (mkWorld ∅ ∅ ∅ 100 [])) = Err ErrNotExist.
Proof.
  rewrite (main_without_config (Sample.env1 Sample.sound_repo) (mkWorld ∅ ∅ ∅ 100 []));
    reflexivity.
Defined.
